(** * esp_neopixel: a WS2812 ("NeoPixel") strip driver on the ESP32 RMT peripheral

    A shallow embedding of [esp_neopixel.c] and the properties of its
    bit encoder and of its two NIFs, [rmt_neopixel_init] and
    [rmt_neopixel_show].

    Conventions of the embedding.
    - C [int] values are [Z]; where the source multiplies [int]s the
      embedding checks the result against [INT_MIN .. INT_MAX] and the
      operation has no defined result ([Undef]) outside it, as signed
      overflow has none in C.
    - [uint8_t] buffers are [list byte]; [rmt_item32_t] buffers are lists
      of records; a store or a load outside a buffer has no defined
      result.
    - The heap is a finite map from addresses to typed blocks; [malloc],
      [calloc] and [free] act on it and are logged in an event trace,
      together with every call into the RMT driver.
    - What the C library and the ESP-IDF driver decide (whether an
      allocation succeeds, the [esp_err_t] a driver call returns) is an
      oracle passed to each operation. *)

From Stdlib Require Import ZArith List Lia.
From Stdlib.Strings Require Import Byte.
From Stdlib.Strings Require Import String.
From stdpp Require Import base option list gmap.

Local Open Scope Z_scope.
Set Warnings "-clear-no-such-hyp".

(** ** Timing constants (lines 18-27) *)

Module Timing.

Definition RMT_TICK_NS : Z := 25.
Definition WS2812_T0H_NS : Z := 350.
Definition WS2812_T0L_NS : Z := 900.
Definition WS2812_T1H_NS : Z := 900.
Definition WS2812_T1L_NS : Z := 350.
Definition WS2812_RESET_US : Z := 280.

(** [#define NS_TO_TICKS(ns) ((ns) / RMT_TICK_NS)]: C integer division,
    which truncates toward zero. *)
Definition NS_TO_TICKS (ns : Z) : Z := ns ÷ RMT_TICK_NS.

Definition T0H : Z := NS_TO_TICKS WS2812_T0H_NS.
Definition T0L : Z := NS_TO_TICKS WS2812_T0L_NS.
Definition T1H : Z := NS_TO_TICKS WS2812_T1H_NS.
Definition T1L : Z := NS_TO_TICKS WS2812_T1L_NS.

End Timing.
Export Timing.

(** ** Pulse descriptors

    [rmt_item32_t] of [driver/rmt.h]: two (level, duration) phases, the
    phase numbered 0 is sent first. *)

Record rmt_item32_t : Type := RmtItem {
  level0 : Z;
  duration0 : Z;
  level1 : Z;
  duration1 : Z
}.

(** What [calloc] leaves in an item: all bits zero. *)
Definition zero_item : rmt_item32_t := RmtItem 0 0 0 0.

(** The value of a [uint8_t]. *)
Definition uint8 (b : byte) : Z := Z.of_N (Byte.to_N b).

(** ** The bit encoder (lines 44-66) *)

Module Encoder.

(** [items[idx] = it]; a store outside the destination is undefined. *)
Definition store_item (items : list rmt_item32_t) (idx : Z) (it : rmt_item32_t)
  : option (list rmt_item32_t) :=
  if (0 <=? idx) && (idx <? Z.of_nat (length items))
  then Some (<[Z.to_nat idx := it]> items)
  else None.

(** [buf[i]]; a load outside the source is undefined. *)
Definition load_byte (buf : list byte) (i : Z) : option byte :=
  if 0 <=? i then buf !! Z.to_nat i else None.

(** The body of the inner loop for one value of [j]: the test
    [byte & (1 << (7 - j))] and the four field stores of its branch. *)
Definition encode_bit (byte : Z) (i j : Z) (items : list rmt_item32_t)
  : option (list rmt_item32_t) :=
  let idx := i * 8 + j in
  if negb (Z.land byte (Z.shiftl 1 (7 - j)) =? 0)
  then store_item items idx
         {| level0 := 1; duration0 := NS_TO_TICKS WS2812_T1H_NS;
            level1 := 0; duration1 := NS_TO_TICKS WS2812_T1L_NS |}
  else store_item items idx
         {| level0 := 1; duration0 := NS_TO_TICKS WS2812_T0H_NS;
            level1 := 0; duration1 := NS_TO_TICKS WS2812_T0L_NS |}.

(** [for (int j = ...; j < 8; j++)], with [n] iterations left. *)
Fixpoint bits_loop (n : nat) (byte : Z) (i j : Z) (items : list rmt_item32_t)
  : option (list rmt_item32_t) :=
  match n with
  | O => Some items
  | S n' =>
      match encode_bit byte i j items with
      | Some items' => bits_loop n' byte i (j + 1) items'
      | None => None
      end
  end.

(** [for (int i = ...; i < len; i++)], with [n] iterations left. *)
Fixpoint bytes_loop (n : nat) (buf : list byte) (i : Z) (items : list rmt_item32_t)
  : option (list rmt_item32_t) :=
  match n with
  | O => Some items
  | S n' =>
      match load_byte buf i with
      | Some byte =>
          match bits_loop 8 (uint8 byte) i 0 items with
          | Some items' => bytes_loop n' buf (i + 1) items'
          | None => None
          end
      | None => None
      end
  end.

(** [neopixel_buf_to_rmt_items(buf, len, items)]: the loops start at 0;
    [len <= 0] runs no iteration. *)
Definition neopixel_buf_to_rmt_items (buf : list byte) (len : Z)
    (items : list rmt_item32_t) : option (list rmt_item32_t) :=
  bytes_loop (Z.to_nat len) buf 0 items.

End Encoder.
Export Encoder.

(** ** Erlang terms at the NIF boundary

    [term.h] belongs to the host runtime; only the tests and accessors the
    two NIFs use are modelled: a term is an integer, a binary, an atom or
    something else. [term_to_int] and [term_binary_size] return the value
    and the length as they are: an integer term fits an [int], and a
    binary is shorter than [INT_MAX] bytes. *)

Module Term.

Inductive atom : Type :=
  | Atom_ok | Atom_error | Atom_memory_error | Atom_badarity | Atom_badarg.

Inductive term : Type :=
  | TInteger (z : Z)
  | TBinary (data : list byte)
  | TAtom (a : atom)
  | TOther.

Definition OK_ATOM : term := TAtom Atom_ok.
Definition ERROR_ATOM : term := TAtom Atom_error.
Definition MEMORY_ERROR_ATOM : term := TAtom Atom_memory_error.
Definition BADARITY : term := TAtom Atom_badarity.
Definition BADARG : term := TAtom Atom_badarg.

Definition term_is_integer (t : term) : bool :=
  match t with TInteger _ => true | _ => false end.

Definition term_to_int (t : term) : Z :=
  match t with TInteger z => z | _ => 0 end.

Definition term_is_binary (t : term) : bool :=
  match t with TBinary _ => true | _ => false end.

Definition term_binary_data (t : term) : list byte :=
  match t with TBinary d => d | _ => [] end.

Definition term_binary_size (t : term) : Z :=
  match t with TBinary d => Z.of_nat (length d) | _ => 0 end.

End Term.
Export Term.

(** ** The RMT driver interface ([driver/rmt.h]) *)

Module Rmt.

Inductive esp_err_t : Type := ESP_OK | ESP_ERR (code : Z).

Inductive rmt_mode_t : Type := RMT_MODE_TX | RMT_MODE_RX.

Record rmt_tx_config_t : Type := {
  loop_en : bool;
  carrier_en : bool;
  idle_output_en : bool;
  idle_level : Z
}.

Record rmt_config_t : Type := {
  rmt_mode : rmt_mode_t;
  channel : Z;
  clk_div : Z;
  gpio_num : Z;
  mem_block_num : Z;
  tx_config : rmt_tx_config_t
}.

Definition RMT_CHANNEL_0 : Z := 0.
Definition RMT_CHANNEL : Z := RMT_CHANNEL_0.

End Rmt.
Export Rmt.

(** ** Memory and the observable trace *)

Module Mem.

Definition ptr : Type := positive.

(** [neopixel_state_t] (lines 33-38); a [NULL] pointer is [None]. *)
Record neopixel_state_t : Type := {
  pin : Z;
  num_leds : Z;
  pixels : option ptr;
  items : option ptr
}.

Inductive block : Type :=
  | BState (s : neopixel_state_t)
  | BPixels (l : list byte)
  | BItems (l : list rmt_item32_t).

Inductive event : Type :=
  | EvLog (num_leds pin : Z)
  | EvAlloc (bytes : Z) (res : option ptr)
  | EvFree (p : ptr)
  | EvRmtConfig (cfg : rmt_config_t) (res : esp_err_t)
  | EvRmtDriverInstall (chan rx_buf_size flags : Z) (res : esp_err_t)
  | EvRmtWriteItems (chan : Z) (sent : list rmt_item32_t) (item_num : Z)
      (wait_tx_done : bool) (res : esp_err_t)
  | EvRmtWaitTxDone (chan wait_ms : Z) (res : esp_err_t)
  | EvAbort.

(** The process: the global [g_state] (line 41), the heap and what has
    been observed so far (oldest event first). *)
Record world : Type := World {
  g_state : option ptr;
  heap : gmap ptr block;
  trace : list event
}.

Definition initial_world : world := World None ∅ [].

(** [int] is 32 bits wide on the target; so are [size_t] and pointers. *)
Definition INT_MAX : Z := 2147483647.
Definition INT_MIN : Z := -2147483648.
Definition SIZE_MODULUS : Z := 4294967296.
Definition PTRDIFF_MAX : Z := 2147483647.

Definition sizeof_neopixel_state_t : Z := 16.
Definition sizeof_uint8_t : Z := 1.
Definition sizeof_rmt_item32_t : Z := 4.

(** Conversion of an [int] argument to [size_t]. *)
Definition to_size_t (z : Z) : Z := z mod SIZE_MODULUS.

End Mem.
Export Mem.

(** ** A state monad with two ways out

    A computation either returns, or the process aborts ([abort()] under
    [ESP_ERROR_CHECK]), or the C program has no defined behaviour. *)

Module Monad.

Inductive result (A : Type) : Type :=
  | Ret (a : A) (w : world)
  | Aborted (w : world)
  | Undef.
Arguments Ret {A} a w.
Arguments Aborted {A} w.
Arguments Undef {A}.

Definition M (A : Type) : Type := world -> result A.

Definition ret {A} (a : A) : M A := fun w => Ret a w.

Definition bind {A B} (m : M A) (k : A -> M B) : M B :=
  fun w => match m w with
           | Ret a w' => k a w'
           | Aborted w' => Aborted w'
           | Undef => Undef
           end.

Definition undefined {A} : M A := fun _ => Undef.

Definition emit (e : event) : M unit :=
  fun w => Ret tt (World (g_state w) (heap w) (trace w ++ [e])).

Definition get_g_state : M (option ptr) := fun w => Ret (g_state w) w.

Definition set_g_state (g : option ptr) : M unit :=
  fun w => Ret tt (World g (heap w) (trace w)).

Definition load (p : ptr) : M block :=
  fun w => match heap w !! p with
           | Some b => Ret b w
           | None => Undef
           end.

Definition store (p : ptr) (b : block) : M unit :=
  fun w => match heap w !! p with
           | Some _ => Ret tt (World (g_state w) (<[p := b]> (heap w)) (trace w))
           | None => Undef
           end.

End Monad.
Export Monad.

Notation "'do' x <- c ; k" := (bind c (fun x => k))
  (at level 10, x name, c at level 100, k at level 200, only parsing).
Notation "'do_' c ; k" := (bind c (fun _ => k))
  (at level 10, c at level 100, k at level 200, only parsing).

(** ** The C library and the driver, as far as the NIFs use them *)

Module Lib.

Definition in_int_range (z : Z) : bool := (INT_MIN <=? z) && (z <=? INT_MAX).

(** [a * b] on [int]: undefined on overflow. *)
Definition int_mul (a b : Z) : M Z :=
  if in_int_range (a * b) then ret (a * b) else undefined.

(** An allocation of [bytes] bytes whose content, when it succeeds, is
    [b]. The allocator answers [ok]; no allocator serves more than
    [PTRDIFF_MAX] bytes. The address is one that is not live. *)
Definition alloc (ok : bool) (bytes : Z) (b : block) : M (option ptr) :=
  fun w =>
    if ok && (bytes <=? PTRDIFF_MAX) then
      let p := fresh (dom (heap w)) in
      Ret (Some p)
          (World (g_state w) (<[p := b]> (heap w))
                 (trace w ++ [EvAlloc bytes (Some p)]))
    else
      Ret None (World (g_state w) (heap w) (trace w ++ [EvAlloc bytes None])).

(** The content of a fresh [malloc(sizeof(neopixel_state_t))] is
    indeterminate; the source stores into each field before it loads
    it. *)
Definition indeterminate_state : neopixel_state_t :=
  {| pin := 0; num_leds := 0; pixels := None; items := None |}.

Definition malloc_state (ok : bool) : M (option ptr) :=
  alloc ok sizeof_neopixel_state_t (BState indeterminate_state).

(** [calloc(nmemb, size)] of a zeroed array, [nmemb] an [int] converted
    to [size_t]. *)
Definition calloc (ok : bool) (nmemb size : Z) (zeroed : nat -> block)
  : M (option ptr) :=
  let n := to_size_t nmemb in
  alloc ok (n * size) (zeroed (Z.to_nat n)).

Definition zeroed_pixels (n : nat) : block := BPixels (replicate n x00%byte).
Definition zeroed_items (n : nat) : block := BItems (replicate n zero_item).

(** [free(p)] for a non-null [p]: undefined unless [p] is live. *)
Definition free (p : ptr) : M unit :=
  fun w => match heap w !! p with
           | Some _ =>
               Ret tt (World (g_state w) (delete p (heap w))
                             (trace w ++ [EvFree p]))
           | None => Undef
           end.

Definition load_state (p : ptr) : M neopixel_state_t :=
  do b <- load p;
  match b with BState s => ret s | _ => undefined end.

Definition load_pixels (p : option ptr) : M (list byte) :=
  match p with
  | Some q => do b <- load q; match b with BPixels l => ret l | _ => undefined end
  | None => undefined
  end.

Definition load_items (p : option ptr) : M (list rmt_item32_t) :=
  match p with
  | Some q => do b <- load q; match b with BItems l => ret l | _ => undefined end
  | None => undefined
  end.

Definition store_pixels (p : option ptr) (l : list byte) : M unit :=
  match p with Some q => store q (BPixels l) | None => undefined end.

Definition store_items (p : option ptr) (l : list rmt_item32_t) : M unit :=
  match p with Some q => store q (BItems l) | None => undefined end.

(** [g_state->field = v]. *)
Definition update_state (p : ptr) (f : neopixel_state_t -> neopixel_state_t)
  : M unit :=
  do s <- load_state p;
  store p (BState (f s)).

Definition set_pin (v : Z) (s : neopixel_state_t) : neopixel_state_t :=
  {| pin := v; num_leds := num_leds s; pixels := pixels s; items := items s |}.
Definition set_num_leds (v : Z) (s : neopixel_state_t) : neopixel_state_t :=
  {| pin := pin s; num_leds := v; pixels := pixels s; items := items s |}.
Definition set_pixels (v : option ptr) (s : neopixel_state_t) : neopixel_state_t :=
  {| pin := pin s; num_leds := num_leds s; pixels := v; items := items s |}.
Definition set_items (v : option ptr) (s : neopixel_state_t) : neopixel_state_t :=
  {| pin := pin s; num_leds := num_leds s; pixels := pixels s; items := v |}.

(** [memcpy(dst, src, n)] into a pixel block, [n] an [int] converted to
    [size_t]: undefined when it runs past either buffer. *)
Definition memcpy (dst : option ptr) (src : list byte) (n : Z) : M unit :=
  let k := to_size_t n in
  do old <- load_pixels dst;
  if (k <=? Z.of_nat (length src)) && (k <=? Z.of_nat (length old))
  then store_pixels dst (take (Z.to_nat k) src ++ drop (Z.to_nat k) old)
  else undefined.

Definition ESP_LOGI (num_leds pin : Z) : M unit := emit (EvLog num_leds pin).

(** [ESP_ERROR_CHECK(x)]: [abort()] unless [x] is [ESP_OK]. *)
Definition ESP_ERROR_CHECK (e : esp_err_t) : M unit :=
  match e with
  | ESP_OK => ret tt
  | ESP_ERR _ =>
      fun w => Aborted (World (g_state w) (heap w) (trace w ++ [EvAbort]))
  end.

Definition rmt_config (cfg : rmt_config_t) (res : esp_err_t) : M esp_err_t :=
  do_ emit (EvRmtConfig cfg res); ret res.

Definition rmt_driver_install (chan rx_buf_size flags : Z) (res : esp_err_t)
  : M esp_err_t :=
  do_ emit (EvRmtDriverInstall chan rx_buf_size flags res); ret res.

(** The driver is handed the array and a count; the event keeps the
    [item_num] entries it is asked to send. *)
Definition rmt_write_items (chan : Z) (src : option ptr) (item_num : Z)
    (wait_tx_done : bool) (res : esp_err_t) : M esp_err_t :=
  do l <- load_items src;
  do_ emit (EvRmtWriteItems chan (take (Z.to_nat item_num) l) item_num
                            wait_tx_done res);
  ret res.

Definition rmt_wait_tx_done (chan wait_ms : Z) (res : esp_err_t) : M esp_err_t :=
  do_ emit (EvRmtWaitTxDone chan wait_ms res); ret res.

End Lib.
Export Lib.

(** ** The two NIFs *)

Module Nif.

(** What the environment answers during one call of each NIF. *)
Record init_oracle : Type := {
  malloc_state_ok : bool;
  calloc_pixels_ok : bool;
  calloc_items_ok : bool;
  rmt_config_res : esp_err_t;
  rmt_driver_install_res : esp_err_t
}.

Record show_oracle : Type := {
  rmt_write_items_res : esp_err_t;
  rmt_wait_tx_done_res : esp_err_t
}.

(** Lines 88-97: release the previous session, if any. *)
Definition free_previous : M unit :=
  do g <- get_g_state;
  match g with
  | Some p =>
      do s <- load_state p;
      do_ (match pixels s with Some px => free px | None => ret tt end);
      do s <- load_state p;
      do_ (match items s with Some it => free it | None => ret tt end);
      free p
  | None => ret tt
  end.

(** Lines 125-137. *)
Definition rmt_cfg_of (pin : Z) : rmt_config_t :=
  {| rmt_mode := RMT_MODE_TX;
     channel := RMT_CHANNEL;
     clk_div := 1;
     gpio_num := pin;
     mem_block_num := 1;
     tx_config := {| loop_en := false;
                     carrier_en := false;
                     idle_output_en := true;
                     idle_level := 0 |} |}.

(** [nif_rmt_neopixel_init] (lines 69-143); [argc] is the length of
    [argv]. *)
Definition nif_rmt_neopixel_init (argv : list term) (o : init_oracle) : M term :=
  let argc := Z.of_nat (length argv) in
  if negb (argc =? 2) then ret BADARITY else
  let pin_term := nth 0 argv TOther in
  let num_leds_term := nth 1 argv TOther in
  if negb (term_is_integer pin_term) || negb (term_is_integer num_leds_term)
  then ret BADARG else
  let pin := term_to_int pin_term in
  let num_leds := term_to_int num_leds_term in
  do_ ESP_LOGI num_leds pin;
  do_ free_previous;
  do g <- malloc_state (malloc_state_ok o);
  do_ set_g_state g;
  match g with
  | None => ret MEMORY_ERROR_ATOM
  | Some p =>
      do_ update_state p (set_pin pin);
      do_ update_state p (set_num_leds num_leds);
      do n3 <- int_mul num_leds 3;
      do px <- calloc (calloc_pixels_ok o) n3 sizeof_uint8_t zeroed_pixels;
      do_ update_state p (set_pixels px);
      match px with
      | None =>
          do_ free p;
          do_ set_g_state None;
          ret MEMORY_ERROR_ATOM
      | Some _ =>
          do n24 <- int_mul n3 8;
          do it <- calloc (calloc_items_ok o) n24 sizeof_rmt_item32_t zeroed_items;
          do_ update_state p (set_items it);
          match it with
          | None =>
              do s <- load_state p;
              do_ (match pixels s with Some q => free q | None => ret tt end);
              do_ free p;
              do_ set_g_state None;
              ret MEMORY_ERROR_ATOM
          | Some _ =>
              do e <- rmt_config (rmt_cfg_of pin) (rmt_config_res o);
              do_ ESP_ERROR_CHECK e;
              do e <- rmt_driver_install RMT_CHANNEL 0 0 (rmt_driver_install_res o);
              do_ ESP_ERROR_CHECK e;
              ret OK_ATOM
          end
      end
  end.

(** [nif_rmt_neopixel_show] (lines 146-182). *)
Definition nif_rmt_neopixel_show (argv : list term) (o : show_oracle) : M term :=
  let argc := Z.of_nat (length argv) in
  if negb (argc =? 1) then ret BADARITY else
  let binary_term := nth 0 argv TOther in
  if negb (term_is_binary binary_term) then ret BADARG else
  do g <- get_g_state;
  match g with
  | None => ret ERROR_ATOM
  | Some p =>
      let buffer := term_binary_data binary_term in
      let byte_count := term_binary_size binary_term in
      do s <- load_state p;
      do cap <- int_mul (num_leds s) 3;
      let byte_count := if byte_count >? cap then cap else byte_count in
      do_ memcpy (pixels s) buffer byte_count;
      do buf <- load_pixels (pixels s);
      do dst <- load_items (items s);
      match neopixel_buf_to_rmt_items buf byte_count dst with
      | None => undefined
      | Some dst' =>
          do_ store_items (items s) dst';
          do n <- int_mul byte_count 8;
          do e <- rmt_write_items RMT_CHANNEL (items s) n false
                    (rmt_write_items_res o);
          do_ ESP_ERROR_CHECK e;
          do e <- rmt_wait_tx_done RMT_CHANNEL 100 (rmt_wait_tx_done_res o);
          do_ ESP_ERROR_CHECK e;
          ret OK_ATOM
      end
  end.

End Nif.
Export Nif.

(** ** Specification-side vocabulary

    The pulse of one bit and the pulse train of a byte sequence as the
    design document words them ("for bit positions 7 down to 0, a set bit
    emits (T1H, T1L), a clear bit (T0H, T0L)"); the source's loop is
    compared with these below. *)

Module Spec.

Definition pulse_of_bit (b : bool) : rmt_item32_t :=
  {| level0 := 1; duration0 := if b then T1H else T0H;
     level1 := 0; duration1 := if b then T1L else T0L |}.

(** Bit [7 - j] of a byte: the [j]-th bit, most significant first. *)
Definition msb_bit (b : byte) (j : nat) : bool :=
  Z.testbit (uint8 b) (7 - Z.of_nat j).

Definition spec_encode_byte (b : byte) : list rmt_item32_t :=
  map (fun j => pulse_of_bit (msb_bit b j)) (seq 0 8).

Definition spec_encode (buf : list byte) : list rmt_item32_t :=
  flat_map spec_encode_byte buf.

End Spec.
Export Spec.

(** ** Sessions, invariants and runs *)

Module Session.

(** The world holds a live session: [g_state] points to a record with
    pin [P] and LED count [N] whose two buffers are live, sized for [N]
    LEDs, and hold [buf] and [pulses]. *)
Record live_session (w : world) (p px it : ptr) (P N : Z)
    (buf : list byte) (pulses : list rmt_item32_t) : Prop := {
  live_g_state : g_state w = Some p;
  live_record :
    heap w !! p
    = Some (BState {| pin := P; num_leds := N;
                      pixels := Some px; items := Some it |});
  live_pixels : heap w !! px = Some (BPixels buf);
  live_items : heap w !! it = Some (BItems pulses);
  live_pixels_len : Z.of_nat (length buf) = 3 * N;
  live_items_len : Z.of_nat (length pulses) = 24 * N;
  live_int_range : 24 * N <= INT_MAX
}.

(** Nothing but the blocks of the current session, if any, is
    allocated. *)
Definition world_inv (w : world) : Prop :=
  match g_state w with
  | None => heap w = ∅
  | Some p =>
      exists px it P N buf pulses,
        live_session w p px it P N buf pulses /\
        dom (heap w) = {[p; px; it]}
  end.

(** The world a computation ends in, when it has one. *)
Definition world_of {A} (r : result A) : option world :=
  match r with
  | Ret _ w => Some w
  | Aborted w => Some w
  | Undef => None
  end.

(** The world once [ESP_LOGI] (line 85) has run. *)
Definition logged (w : world) (n pin : Z) : world :=
  World (g_state w) (heap w) (trace w ++ [EvLog n pin]).

(** The events a step from [w] to [w'] added. *)
Definition new_events (w w' : world) : list event :=
  drop (length (trace w)) (trace w').

Definition is_alloc_failure (e : event) : bool :=
  match e with EvAlloc _ None => true | _ => false end.

Definition is_free (e : event) : bool :=
  match e with EvFree _ => true | _ => false end.

Definition is_driver_event (e : event) : bool :=
  match e with
  | EvRmtConfig _ _ | EvRmtDriverInstall _ _ _ _
  | EvRmtWriteItems _ _ _ _ _ | EvRmtWaitTxDone _ _ _ => true
  | _ => false
  end.

(** The addresses allocated, and those freed, by a list of events. *)
Definition allocated_by (evs : list event) : list ptr :=
  flat_map (fun e => match e with EvAlloc _ (Some q) => [q] | _ => [] end) evs.

Definition freed_by (evs : list event) : list ptr :=
  flat_map (fun e => match e with EvFree q => [q] | _ => [] end) evs.

(** The configurations handed to [rmt_config], in order. *)
Definition rmt_configs_of (evs : list event) : list rmt_config_t :=
  flat_map (fun e => match e with EvRmtConfig c _ => [c] | _ => [] end) evs.

(** One call from the host. *)
Inductive call : Type :=
  | CallInit (argv : list term) (o : init_oracle)
  | CallShow (argv : list term) (o : show_oracle).

Definition run_call (c : call) : M term :=
  match c with
  | CallInit argv o => nif_rmt_neopixel_init argv o
  | CallShow argv o => nif_rmt_neopixel_show argv o
  end.

(** The worlds the process can be in between two calls. *)
Inductive reachable : world -> Prop :=
  | reachable_initial : reachable initial_world
  | reachable_step (w : world) (c : call) (r : term) (w' : world) :
      reachable w -> run_call c w = Ret r w' -> reachable w'.

(** A run of calls, stopping at the first that does not return. *)
Fixpoint run (cs : list call) (w : world) : result (list term) :=
  match cs with
  | [] => Ret [] w
  | c :: cs' =>
      match run_call c w with
      | Ret r w' =>
          match run cs' w' with
          | Ret rs w'' => Ret (r :: rs) w''
          | Aborted w'' => Aborted w''
          | Undef => Undef
          end
      | Aborted w' => Aborted w'
      | Undef => Undef
      end
  end.

Definition all_ok_init : init_oracle :=
  {| malloc_state_ok := true; calloc_pixels_ok := true; calloc_items_ok := true;
     rmt_config_res := ESP_OK; rmt_driver_install_res := ESP_OK |}.

Definition all_ok_show : show_oracle :=
  {| rmt_write_items_res := ESP_OK; rmt_wait_tx_done_res := ESP_OK |}.

(** The allocator serves the record and the pixel buffer and refuses the
    pulse buffer. *)
Definition no_items_init : init_oracle :=
  {| malloc_state_ok := true; calloc_pixels_ok := true; calloc_items_ok := false;
     rmt_config_res := ESP_OK; rmt_driver_install_res := ESP_OK |}.

(** The world a call leaves behind (the initial one when it has none). *)
Definition world_after {A} (r : result A) : world :=
  match world_of r with
  | Some w => w
  | None => initial_world
  end.

(** A strip of one LED on pin 5, after a successful [rmt_neopixel_init]
    in a fresh process. *)
Definition one_led_world : world :=
  world_after
    (nif_rmt_neopixel_init [TInteger 5; TInteger 1] all_ok_init initial_world).

(** The same for two LEDs. *)
Definition two_led_world : world :=
  world_after
    (nif_rmt_neopixel_init [TInteger 5; TInteger 2] all_ok_init initial_world).

(** A second [rmt_neopixel_init], for two LEDs, on top of the one-LED
    session. *)
Definition two_led_world_again : world :=
  world_after
    (nif_rmt_neopixel_init [TInteger 5; TInteger 2] all_ok_init one_led_world).

End Session.
Export Session.

(** ** The NIF table (lines 184-211) *)

Module NifTable.

(** [.base.type] and [.arg_type] of [struct Nif]: the only values the
    source uses. *)
Inductive function_type : Type := NIFFunctionType.
Inductive arg_type_t : Type := ArgDefault.

(** What the environment answers during a call through the table,
    whichever NIF it reaches. *)
Record nif_oracle : Type := {
  init_answers : init_oracle;
  show_answers : show_oracle
}.

Record Nif : Type := {
  base_type : function_type;
  nif_ptr : list term -> nif_oracle -> M term;
  name : string;
  arity : Z;
  arg_type : arg_type_t
}.

Definition rmt_neopixel_init_nif : Nif :=
  {| base_type := NIFFunctionType;
     nif_ptr := fun argv o => nif_rmt_neopixel_init argv (init_answers o);
     name := "rmt_neopixel_init";
     arity := 2;
     arg_type := ArgDefault |}.

Definition rmt_neopixel_show_nif : Nif :=
  {| base_type := NIFFunctionType;
     nif_ptr := fun argv o => nif_rmt_neopixel_show argv (show_answers o);
     name := "rmt_neopixel_show";
     arity := 1;
     arg_type := ArgDefault |}.

(** [esp_neopixel_nif_get_nif]: [strcmp(a, b) == 0] is equality of the
    two strings; [NULL] is [None]. *)
Definition esp_neopixel_nif_get_nif (nifname : string) : option Nif :=
  if String.eqb "rmt_neopixel_init" nifname then Some rmt_neopixel_init_nif
  else if String.eqb "rmt_neopixel_show" nifname then Some rmt_neopixel_show_nif
  else None.

End NifTable.
Export NifTable.

(** ** More vocabulary for buffers and traces *)

Module Vocabulary.

(** Wherever the pulse buffer has been written since [calloc], it holds
    the encoding of the pixel buffer. *)
Definition coherent (buf : list byte) (pulses : list rmt_item32_t) : Prop :=
  forall (k : nat) (it : rmt_item32_t),
    pulses !! k = Some it -> it = zero_item \/ spec_encode buf !! k = Some it.

(** The session of a world is coherent, when there is one. *)
Definition world_coherent (w : world) : Prop :=
  forall p px it P N buf pulses,
    live_session w p px it P N buf pulses -> coherent buf pulses.

Definition is_memory_event (e : event) : bool :=
  match e with EvAlloc _ _ | EvFree _ => true | _ => false end.

Definition is_setup_event (e : event) : bool :=
  match e with
  | EvLog _ _ | EvRmtConfig _ _ | EvRmtDriverInstall _ _ _ _ => true
  | _ => false
  end.

Definition is_transmit_event (e : event) : bool :=
  match e with
  | EvRmtWriteItems _ _ _ _ _ | EvRmtWaitTxDone _ _ _ => true
  | _ => false
  end.

(** The descriptor arrays handed to [rmt_write_items], each with its
    [item_num], in order. *)
Definition submitted_by (evs : list event) : list (list rmt_item32_t * Z) :=
  flat_map (fun e => match e with
                     | EvRmtWriteItems _ l n _ _ => [(l, n)]
                     | _ => []
                     end) evs.

(** Nothing is refused during an [init]. *)
Definition init_all_ok (o : init_oracle) : Prop :=
  malloc_state_ok o = true /\ calloc_pixels_ok o = true /\
  calloc_items_ok o = true /\
  rmt_config_res o = ESP_OK /\ rmt_driver_install_res o = ESP_OK.

(** A strip of zero LEDs, when the allocator serves empty arrays. *)
Definition zero_led_world : world :=
  world_after
    (nif_rmt_neopixel_init [TInteger 5; TInteger 0] all_ok_init initial_world).

(** One LED, after a first frame. *)
Definition one_led_shown_world : world :=
  world_after
    (nif_rmt_neopixel_show [TBinary [x12; x34; x56]%byte] all_ok_show
       one_led_world).

(** Two LEDs, after a full frame. *)
Definition two_led_shown_world : world :=
  world_after
    (nif_rmt_neopixel_show [TBinary [x01; x02; x03; x04; x05; x06]%byte]
       all_ok_show two_led_world).

Definition write_fails_show : show_oracle :=
  {| rmt_write_items_res := ESP_ERR 258; rmt_wait_tx_done_res := ESP_OK |}.

Definition wait_fails_show : show_oracle :=
  {| rmt_write_items_res := ESP_OK; rmt_wait_tx_done_res := ESP_ERR 263 |}.

Definition config_fails_init : init_oracle :=
  {| malloc_state_ok := true; calloc_pixels_ok := true; calloc_items_ok := true;
     rmt_config_res := ESP_ERR 258; rmt_driver_install_res := ESP_OK |}.

Definition install_fails_init : init_oracle :=
  {| malloc_state_ok := true; calloc_pixels_ok := true; calloc_items_ok := true;
     rmt_config_res := ESP_OK; rmt_driver_install_res := ESP_ERR 259 |}.

End Vocabulary.
Export Vocabulary.

(** * Properties *)

(** ** The encoder *)

Section EncoderFacts.

Lemma land_single_bit (x k : Z) :
  0 <= k -> negb (Z.land x (Z.shiftl 1 k) =? 0) = Z.testbit x k.
Proof.
  intros Hk. rewrite Z.shiftl_1_l.
  destruct (Z.testbit x k) eqn:Hb.
  - apply negb_true_iff, Z.eqb_neq. intros H0.
    assert (Z.testbit (Z.land x (2 ^ k)) k = true) as Hc.
    { rewrite Z.land_spec, Hb, Z.pow2_bits_true by lia. reflexivity. }
    rewrite H0, Z.bits_0 in Hc. discriminate.
  - apply negb_false_iff, Z.eqb_eq. apply Z.bits_inj'. intros n Hn.
    rewrite Z.land_spec, Z.bits_0.
    destruct (Z.eq_dec n k) as [->|Hne].
    + rewrite Hb. reflexivity.
    + rewrite Z.pow2_bits_false by lia. apply andb_false_r.
Qed.

Lemma store_item_in (l : list rmt_item32_t) (idx : Z) (it : rmt_item32_t) :
  0 <= idx < Z.of_nat (length l) ->
  store_item l idx it = Some (<[Z.to_nat idx := it]> l).
Proof.
  intros [H0 H1]. unfold store_item.
  destruct (Z.leb_spec 0 idx); [|lia].
  destruct (Z.ltb_spec idx (Z.of_nat (length l))); [|lia].
  reflexivity.
Qed.

Lemma encode_bit_in (byte i j : Z) (l : list rmt_item32_t) :
  0 <= j <= 7 -> 0 <= i * 8 + j < Z.of_nat (length l) ->
  encode_bit byte i j l
  = Some (<[Z.to_nat (i * 8 + j) := pulse_of_bit (Z.testbit byte (7 - j))]> l).
Proof.
  intros Hj Hidx. unfold encode_bit.
  rewrite land_single_bit by lia.
  destruct (Z.testbit byte (7 - j)); apply store_item_in; exact Hidx.
Qed.

Lemma bits_loop_lookup (n : nat) : forall (byte i j : Z) (l : list rmt_item32_t),
  0 <= i -> 0 <= j -> j + Z.of_nat n <= 8 ->
  i * 8 + j + Z.of_nat n <= Z.of_nat (length l) ->
  exists out,
    bits_loop n byte i j l = Some out /\
    length out = length l /\
    forall k : nat,
      out !! k =
      if decide (i * 8 + j <= Z.of_nat k < i * 8 + j + Z.of_nat n)
      then Some (pulse_of_bit (Z.testbit byte (7 - (Z.of_nat k - i * 8))))
      else l !! k.
Proof.
  induction n as [|n IH]; intros byte i j l Hi Hj Hn Hlen.
  - exists l. split; [reflexivity|]. split; [reflexivity|].
    intros k. destruct (decide _); [lia|reflexivity].
  - cbn [bits_loop]. rewrite encode_bit_in by lia.
    set (l1 := <[Z.to_nat (i * 8 + j) := _]> l).
    assert (length l1 = length l) as Hl1 by apply length_insert.
    destruct (IH byte i (j + 1) l1) as (out & Hrun & Hlo & Hk); try lia.
    exists out. split; [exact Hrun|]. split; [congruence|].
    intros k. rewrite Hk.
    destruct (decide (i * 8 + (j + 1) <= Z.of_nat k < _)) as [Hin|Hout].
    + destruct (decide _); [reflexivity|lia].
    + destruct (decide (Z.of_nat k = i * 8 + j)) as [Heq|Hne].
      * destruct (decide _); [|lia].
        replace k with (Z.to_nat (i * 8 + j)) by lia.
        unfold l1. rewrite list_lookup_insert_eq by lia.
        do 3 f_equal. lia.
      * destruct (decide _); [lia|].
        unfold l1. apply list_lookup_insert_ne. lia.
Qed.

Lemma load_byte_in (buf : list byte) (i : Z) :
  0 <= i -> load_byte buf i = buf !! Z.to_nat i.
Proof.
  intros Hi. unfold load_byte. destruct (Z.leb_spec 0 i); [reflexivity|lia].
Qed.

(** What the byte loop leaves at every index of the destination. *)
Lemma bytes_loop_lookup (n : nat) : forall (buf : list byte) (i : Z)
    (l : list rmt_item32_t),
  0 <= i -> i + Z.of_nat n <= Z.of_nat (length buf) ->
  8 * (i + Z.of_nat n) <= Z.of_nat (length l) ->
  exists out,
    bytes_loop n buf i l = Some out /\
    length out = length l /\
    forall k : nat,
      out !! k =
      if decide (8 * i <= Z.of_nat k < 8 * (i + Z.of_nat n))
      then b ← buf !! (k / 8)%nat;
           Some (pulse_of_bit (msb_bit b (k mod 8)))
      else l !! k.
Proof.
  induction n as [|n IH]; intros buf i l Hi Hbuf Hlen.
  - exists l. split; [reflexivity|]. split; [reflexivity|].
    intros k. destruct (decide _); [lia|reflexivity].
  - cbn [bytes_loop]. rewrite load_byte_in by lia.
    destruct (lookup_lt_is_Some_2 buf (Z.to_nat i)) as [b Hb]; [lia|].
    rewrite Hb.
    destruct (bits_loop_lookup 8 (uint8 b) i 0 l) as (l1 & Hrun1 & Hl1 & Hk1);
      try lia.
    rewrite Hrun1.
    destruct (IH buf (i + 1) l1) as (out & Hrun & Hlo & Hk); try lia.
    exists out. split; [exact Hrun|]. split; [congruence|].
    intros k. rewrite Hk, Hk1.
    destruct (decide (8 * (i + 1) <= Z.of_nat k < _)) as [Hin|Hout].
    + destruct (decide _); [reflexivity|lia].
    + destruct (decide (i * 8 + 0 <= Z.of_nat k < i * 8 + 0 + Z.of_nat 8))
        as [Hin1|Hout1].
      * destruct (decide _); [|lia].
        assert (k / 8 = Z.to_nat i)%nat as Hq.
        { symmetry. apply Nat.div_unique with (r := (k - 8 * Z.to_nat i)%nat); lia. }
        assert (Z.of_nat (k mod 8) = Z.of_nat k - i * 8) as Hr.
        { pose proof (Nat.div_mod_eq k 8). lia. }
        rewrite Hq, Hb. unfold msb_bit. rewrite Hr. reflexivity.
      * destruct (decide _); [lia|reflexivity].
Qed.

Lemma spec_encode_length (buf : list byte) :
  length (spec_encode buf) = (8 * length buf)%nat.
Proof.
  induction buf as [|b buf IH]; [reflexivity|].
  cbn [spec_encode flat_map]. rewrite length_app. fold (spec_encode buf).
  rewrite IH. cbn. lia.
Qed.

Lemma spec_encode_lookup (buf : list byte) : forall k : nat,
  spec_encode buf !! k =
  if decide (k < 8 * length buf)%nat
  then b ← buf !! (k / 8)%nat; Some (pulse_of_bit (msb_bit b (k mod 8)))
  else None.
Proof.
  induction buf as [|b buf IH]; intros k.
  - destruct (decide _); [cbn in *; lia|reflexivity].
  - cbn [spec_encode flat_map]. fold (spec_encode buf).
    destruct (decide (k < 8)%nat) as [Hlt|Hge].
    + rewrite lookup_app_l by (cbn; lia).
      destruct (decide _); [|cbn in *; lia].
      rewrite Nat.div_small, Nat.mod_small by lia. cbn [lookup list_lookup mbind option_bind].
      do 8 (destruct k as [|k]; [reflexivity|]). lia.
    + rewrite lookup_app_r by (cbn; lia).
      replace (length (spec_encode_byte b)) with 8%nat by reflexivity.
      rewrite IH.
      assert (k / 8 = S ((k - 8) / 8))%nat as Hq.
      { replace k with ((k - 8) + 1 * 8)%nat at 1 by lia.
        rewrite Nat.div_add by lia. lia. }
      assert (k mod 8 = (k - 8) mod 8)%nat as Hr.
      { replace k with ((k - 8) + 1 * 8)%nat at 1 by lia.
        apply Nat.Div0.mod_add. }
      rewrite Hq, Hr. cbn [length].
      destruct (decide (k - 8 < _)%nat); destruct (decide (k < _)%nat);
        try lia; reflexivity.
Qed.

(** The source's loop computes the design's pulse train, in place. *)
Lemma neopixel_buf_to_rmt_items_prefix (buf : list byte) (n : nat)
    (l : list rmt_item32_t) :
  (n <= length buf)%nat -> (8 * n <= length l)%nat ->
  neopixel_buf_to_rmt_items buf (Z.of_nat n) l
  = Some (spec_encode (take n buf) ++ drop (8 * n) l).
Proof.
  intros Hn Hl. unfold neopixel_buf_to_rmt_items. rewrite Nat2Z.id.
  destruct (bytes_loop_lookup n buf 0 l) as (out & Hrun & Hlen & Hk); try lia.
  rewrite Hrun. f_equal. apply list_eq. intros k. rewrite Hk.
  assert (length (spec_encode (take n buf)) = (8 * n)%nat) as Hsl.
  { rewrite spec_encode_length, length_take. lia. }
  destruct (decide _) as [Hin|Hout].
  - rewrite lookup_app_l by lia. rewrite spec_encode_lookup.
    rewrite length_take, Nat.min_l by lia.
    destruct (decide _); [|lia].
    rewrite lookup_take_lt; [reflexivity|].
    apply Nat.Div0.div_lt_upper_bound. lia.
  - rewrite lookup_app_r by lia. rewrite Hsl, lookup_drop. f_equal. lia.
Qed.

End EncoderFacts.

(** ** Stepping through the NIFs *)

Ltac mcbn :=
  cbv beta iota zeta delta [bind ret undefined emit get_g_state set_g_state load store
       load_state load_pixels load_items store_pixels store_items
       update_state memcpy ESP_LOGI ESP_ERROR_CHECK rmt_config
       rmt_driver_install rmt_write_items rmt_wait_tx_done int_mul
       malloc_state calloc free free_previous
       g_state heap trace pin num_leds pixels items
       set_pin set_num_leds set_pixels set_items indeterminate_state].

Ltac mrun :=
  repeat (mcbn;
          first [ rewrite lookup_insert_eq
                | rewrite lookup_insert_ne by done
                | rewrite insert_insert_eq ]);
  mcbn.

Section Stepping.

Lemma in_int_range_true z : INT_MIN <= z <= INT_MAX -> in_int_range z = true.
Proof. unfold in_int_range. intros. apply andb_true_iff. split; apply Z.leb_le; lia. Qed.

Lemma to_size_t_small z : 0 <= z < SIZE_MODULUS -> to_size_t z = z.
Proof. apply Z.mod_small. Qed.

Lemma show_live (w : world) p px it P N buf pulses data o :
  live_session w p px it P N buf pulses ->
  let c := Nat.min (length data) (length buf) in
  let buf' := take c data ++ drop c buf in
  let sent := spec_encode (take c data) in
  let pulses' := sent ++ drop (8 * c) pulses in
  let h' := <[it := BItems pulses']> (<[px := BPixels buf']> (heap w)) in
  let e1 := EvRmtWriteItems RMT_CHANNEL sent (Z.of_nat c * 8) false
              (rmt_write_items_res o) in
  let e2 := EvRmtWaitTxDone RMT_CHANNEL 100 (rmt_wait_tx_done_res o) in
  nif_rmt_neopixel_show [TBinary data] o w =
  match rmt_write_items_res o with
  | ESP_ERR _ => Aborted (World (g_state w) h' (trace w ++ [e1; EvAbort]))
  | ESP_OK =>
      match rmt_wait_tx_done_res o with
      | ESP_ERR _ => Aborted (World (g_state w) h' (trace w ++ [e1; e2; EvAbort]))
      | ESP_OK => Ret OK_ATOM (World (g_state w) h' (trace w ++ [e1; e2]))
      end
  end.
Proof.
  intros [Hg Hrec Hpx Hit Hlb Hlp Hr]. intros c buf' sent pulses' h' e1 e2.
  destruct w as [g h t]. cbn [g_state heap trace] in *. subst g.
  assert (px <> it) as Hne by (intros ->; congruence).
  assert (INT_MAX = 2147483647) as HM by reflexivity.
  assert (INT_MIN = -2147483648) as Hm by reflexivity.
  assert (SIZE_MODULUS = 4294967296) as HS by reflexivity.
  unfold nif_rmt_neopixel_show.
  change (negb (Z.of_nat (length [TBinary data]) =? 1)) with false.
  cbn [nth term_is_binary term_binary_data term_binary_size negb].
  mcbn. rewrite Hrec. mcbn.
  rewrite in_int_range_true by lia. mcbn.
  set (bc := if Z.of_nat (length data) >? N * 3 then N * 3 else Z.of_nat (length data)).
  assert (bc = Z.of_nat c) as Hbc.
  { unfold bc, c. destruct (Z.gtb_spec (Z.of_nat (length data)) (N * 3)); lia. }
  clearbody bc. subst bc.
  rewrite Hpx. mcbn. rewrite to_size_t_small by lia. rewrite Nat2Z.id.
  replace ((Z.of_nat c <=? Z.of_nat (length data)) && (Z.of_nat c <=? Z.of_nat (length buf))) with true
    by (symmetry; apply andb_true_iff; split; apply Z.leb_le; lia).
  mcbn. rewrite Hpx. mcbn. rewrite lookup_insert_eq. mcbn.
  rewrite lookup_insert_ne by done. rewrite Hit. mcbn.
  fold buf'.
  assert (length buf' = length buf) as Hlb'.
  { unfold buf'. rewrite length_app, length_take, length_drop. lia. }
  assert (take c buf' = take c data) as Htk.
  { unfold buf'. rewrite take_app_le by (rewrite length_take; lia).
    rewrite take_take. f_equal. lia. }
  rewrite neopixel_buf_to_rmt_items_prefix by lia.
  rewrite Htk. fold sent. fold pulses'.
  mcbn. rewrite lookup_insert_ne by done. rewrite Hit. mcbn.
  rewrite in_int_range_true by lia. mcbn.
  rewrite lookup_insert_eq. mcbn.
  assert (take (Z.to_nat (Z.of_nat c * 8)) pulses' = sent) as Hsent.
  { unfold pulses'. rewrite take_app_length'; [reflexivity|].
    unfold sent. rewrite spec_encode_length, length_take. lia. }
  rewrite Hsent. fold e1. fold h'.
  destruct (rmt_write_items_res o); [|rewrite <- app_assoc; reflexivity].
  mcbn. fold e2.
  destruct (rmt_wait_tx_done_res o); mcbn; rewrite <- !app_assoc; reflexivity.
Qed.

Lemma free_previous_none w : g_state w = None -> free_previous w = Ret tt w.
Proof. destruct w as [g h t]. cbn. intros ->. reflexivity. Qed.

Lemma live_distinct w p px it P N buf pulses :
  live_session w p px it P N buf pulses -> p <> px /\ p <> it /\ px <> it.
Proof.
  intros [_ Hrec Hpx Hit _ _ _].
  repeat split; intros ->; congruence.
Qed.

Lemma free_previous_live w p px it P N buf pulses :
  live_session w p px it P N buf pulses ->
  free_previous w
  = Ret tt (World (Some p) (delete p (delete it (delete px (heap w))))
                  (trace w ++ [EvFree px; EvFree it; EvFree p])).
Proof.
  intros Hlive. destruct (live_distinct _ _ _ _ _ _ _ _ Hlive) as (Hppx & Hpit & Hpxit).
  destruct Hlive as [Hg Hrec Hpx Hit _ _ _].
  destruct w as [g h t]. cbn [g_state heap trace] in *. subst g.
  mcbn. rewrite Hrec. mcbn. rewrite Hpx. mcbn.
  rewrite lookup_delete_ne by done. rewrite Hrec. mcbn.
  rewrite lookup_delete_ne by done. rewrite Hit. mcbn.
  rewrite !lookup_delete_ne by done. rewrite Hrec.
  rewrite <- !app_assoc. reflexivity.
Qed.

Lemma init_from (pin n : Z) (o : init_oracle) (w w0 : world) :
  free_previous (logged w n pin) = Ret tt w0 ->
  let h0 := heap w0 in
  let t0 := trace w0 in
  let p := fresh (dom h0) in
  let px := fresh ({[p]} ∪ dom h0) in
  let it := fresh ({[px]} ∪ ({[p]} ∪ dom h0)) in
  let s3 := to_size_t (n * 3) in
  let s24 := to_size_t (n * 3 * 8) in
  let a1 := EvAlloc sizeof_neopixel_state_t (Some p) in
  let rec_ := BState {| pin := pin; num_leds := n;
                        pixels := Some px; items := Some it |} in
  let h3 := <[it := zeroed_items (Z.to_nat s24)]>
              (<[px := zeroed_pixels (Z.to_nat s3)]> (<[p := rec_]> h0)) in
  let t3 := t0 ++ [a1; EvAlloc (s3 * sizeof_uint8_t) (Some px);
                   EvAlloc (s24 * sizeof_rmt_item32_t) (Some it);
                   EvRmtConfig (rmt_cfg_of pin) (rmt_config_res o)] in
  let e5 := EvRmtDriverInstall RMT_CHANNEL 0 0 (rmt_driver_install_res o) in
  nif_rmt_neopixel_init [TInteger pin; TInteger n] o w =
  if negb (malloc_state_ok o) then
    Ret MEMORY_ERROR_ATOM
        (World None h0 (t0 ++ [EvAlloc sizeof_neopixel_state_t None]))
  else if negb (in_int_range (n * 3)) then Undef
  else if negb (calloc_pixels_ok o && (s3 * sizeof_uint8_t <=? PTRDIFF_MAX)) then
    Ret MEMORY_ERROR_ATOM
        (World None h0 (t0 ++ [a1; EvAlloc (s3 * sizeof_uint8_t) None; EvFree p]))
  else if negb (in_int_range (n * 3 * 8)) then Undef
  else if negb (calloc_items_ok o && (s24 * sizeof_rmt_item32_t <=? PTRDIFF_MAX)) then
    Ret MEMORY_ERROR_ATOM
        (World None h0
               (t0 ++ [a1; EvAlloc (s3 * sizeof_uint8_t) (Some px);
                       EvAlloc (s24 * sizeof_rmt_item32_t) None;
                       EvFree px; EvFree p]))
  else
    match rmt_config_res o with
    | ESP_ERR _ => Aborted (World (Some p) h3 (t3 ++ [EvAbort]))
    | ESP_OK =>
        match rmt_driver_install_res o with
        | ESP_ERR _ => Aborted (World (Some p) h3 (t3 ++ [e5; EvAbort]))
        | ESP_OK => Ret OK_ATOM (World (Some p) h3 (t3 ++ [e5]))
        end
    end.
Proof.
  intros Hfree h0 t0 p px it s3 s24 a1 rec_ h3 t3 e5.
  assert (h0 !! p = None) as Hp.
  { apply not_elem_of_dom. apply is_fresh. }
  assert (px <> p /\ h0 !! px = None) as [Hpxp Hpx].
  { pose proof (is_fresh ({[p]} ∪ dom h0)) as Hf. fold px in Hf.
    split; [set_solver|]. apply not_elem_of_dom. set_solver. }
  assert (it <> px /\ it <> p /\ h0 !! it = None) as (Hitpx & Hitp & Hit).
  { pose proof (is_fresh ({[px]} ∪ ({[p]} ∪ dom h0))) as Hf. fold it in Hf.
    repeat split; [set_solver|set_solver|]. apply not_elem_of_dom. set_solver. }
  unfold nif_rmt_neopixel_init.
  change (negb (Z.of_nat (length [TInteger pin; TInteger n]) =? 2)) with false.
  cbn [nth term_is_integer term_to_int negb orb].
  destruct w as [g h t]. unfold logged in Hfree. cbn [g_state heap trace] in Hfree.
  unfold bind at 1. unfold ESP_LOGI, emit at 1. cbn [g_state heap trace].
  unfold bind at 1. rewrite Hfree.
  destruct w0 as [g0 hh tt0]. cbn [heap trace] in h0, t0. subst h0 t0.
  unfold malloc_state, alloc. mcbn.
  replace (sizeof_neopixel_state_t <=? PTRDIFF_MAX) with true by reflexivity.
  rewrite andb_true_r.
  destruct (malloc_state_ok o); cbn [negb]; [|reflexivity].
  fold p. mrun.
  destruct (in_int_range (n * 3)); cbn [negb]; [|reflexivity].
  mcbn. unfold alloc. mcbn. fold s3.
  destruct (calloc_pixels_ok o && (s3 * sizeof_uint8_t <=? PTRDIFF_MAX)); cbn [negb].
  2:{ mrun. rewrite delete_insert_id by done.
      rewrite <- !app_assoc. reflexivity. }
  mcbn. rewrite dom_insert_L. fold px. mrun.
  rewrite (insert_insert_ne _ p px) by done. rewrite insert_insert_eq.
  destruct (in_int_range (n * 3 * 8)); cbn [negb]; [|reflexivity].
  mcbn. unfold alloc. mcbn. fold s24.
  destruct (calloc_items_ok o && (s24 * sizeof_rmt_item32_t <=? PTRDIFF_MAX)); cbn [negb].
  2:{ mrun. rewrite (insert_insert_ne _ p px) by done. rewrite insert_insert_eq.
      mrun. rewrite delete_insert_id by (rewrite lookup_insert_ne by done; done).
      mrun. rewrite delete_insert_id by done.
      rewrite <- !app_assoc. reflexivity. }
  mcbn. rewrite !dom_insert_L. fold it. mrun.
  rewrite (insert_insert_ne _ p it) by done.
  rewrite (insert_insert_ne _ p px) by done. rewrite insert_insert_eq.
  fold rec_. fold h3.
  destruct (rmt_config_res o) eqn:E1; mcbn.
  2:{ unfold t3. rewrite ?E1. rewrite <- !app_assoc. reflexivity. }
  destruct (rmt_driver_install_res o) eqn:E2; mcbn;
    unfold t3, e5; rewrite ?E1, ?E2; rewrite <- !app_assoc; reflexivity.
Qed.

Lemma show_arity argv o w :
  length argv <> 1%nat -> nif_rmt_neopixel_show argv o w = Ret BADARITY w.
Proof.
  intros Hn. unfold nif_rmt_neopixel_show.
  destruct (Z.eqb_spec (Z.of_nat (length argv)) 1) as [Heq|_]; [lia|].
  reflexivity.
Qed.

Lemma show_badarg t o w :
  term_is_binary t = false -> nif_rmt_neopixel_show [t] o w = Ret BADARG w.
Proof. intros Ht. unfold nif_rmt_neopixel_show. cbn. rewrite Ht. reflexivity. Qed.

Lemma show_no_session data o w :
  g_state w = None -> nif_rmt_neopixel_show [TBinary data] o w = Ret ERROR_ATOM w.
Proof.
  intros Hg. destruct w as [g h t]. cbn in Hg. subst g. reflexivity.
Qed.

Lemma init_arity argv o w :
  length argv <> 2%nat -> nif_rmt_neopixel_init argv o w = Ret BADARITY w.
Proof.
  intros Hn. unfold nif_rmt_neopixel_init.
  destruct (Z.eqb_spec (Z.of_nat (length argv)) 2) as [Heq|_]; [lia|].
  reflexivity.
Qed.

Lemma init_badarg a b o w :
  term_is_integer a = false \/ term_is_integer b = false ->
  nif_rmt_neopixel_init [a; b] o w = Ret BADARG w.
Proof.
  intros Ht. unfold nif_rmt_neopixel_init. cbn [length Z.of_nat Pos.of_succ_nat Pos.succ Z.eqb Pos.eqb negb nth].
  destruct Ht as [-> | ->]; cbn [negb orb]; [reflexivity|].
  rewrite orb_true_r. reflexivity.
Qed.

(** Every argument vector falls in one of the cases above. *)
Lemma init_argv_cases (argv : list term) :
  length argv <> 2%nat \/
  (exists a b, argv = [a; b] /\
               (term_is_integer a = false \/ term_is_integer b = false)) \/
  (exists pin n, argv = [TInteger pin; TInteger n]).
Proof.
  destruct argv as [|a [|b [|c l]]]; try (left; cbn; lia).
  right. destruct a as [pin| | |];
    try (left; eexists _, _; split; [reflexivity|left; reflexivity]).
  destruct b as [n| | |];
    try (left; eexists _, _; split; [reflexivity|right; reflexivity]).
  right. eauto.
Qed.

Lemma show_argv_cases (argv : list term) :
  length argv <> 1%nat \/
  (exists t, argv = [t] /\ term_is_binary t = false) \/
  (exists data, argv = [TBinary data]).
Proof.
  destruct argv as [|a [|b l]]; try (left; cbn; lia).
  right. destruct a as [| data | |];
    try (left; eexists; split; reflexivity).
  right. eauto.
Qed.

Lemma free_previous_shape w1 w0 :
  free_previous w1 = Ret tt w0 ->
  g_state w0 = g_state w1 /\
  exists fr, trace w0 = trace w1 ++ fr /\ Forall (fun e => is_free e = true) fr.
Proof.
  remember (g_state w0 = g_state w1 /\
            exists fr, trace w0 = trace w1 ++ fr /\ Forall (fun e => is_free e = true) fr) as Q eqn:HQ.
  destruct w1 as [g h t]. destruct g as [p|]; mcbn.
  2:{ intros [= <-]. subst Q. split; [reflexivity|]. exists [].
      rewrite app_nil_r. split; [reflexivity|constructor]. }
  repeat match goal with
         | |- context [match ?x with _ => _ end] =>
             lazymatch x with
             | context [match _ with _ => _ end] => fail
             | _ => destruct x eqn:?; mcbn; try discriminate
             end
         end;
    intros Heq; injection Heq as <-; subst Q; (split; [reflexivity|]);
    cbn [trace];
    eexists; (split; [rewrite <- ?app_assoc; reflexivity|]);
    repeat constructor.
Qed.

Lemma free_previous_no_abort w w' : free_previous w <> Aborted w'.
Proof.
  destruct w as [g h t]. destruct g as [p|]; mcbn; [|discriminate].
  repeat match goal with
         | |- context [match ?x with _ => _ end] =>
             lazymatch x with
             | context [match _ with _ => _ end] => fail
             | _ => destruct x eqn:?; mcbn; try discriminate
             end
         end.
Qed.

Lemma init_defined (pin n : Z) o w w' :
  world_of (nif_rmt_neopixel_init [TInteger pin; TInteger n] o w) = Some w' ->
  exists w0, free_previous (logged w n pin) = Ret tt w0.
Proof.
  unfold nif_rmt_neopixel_init.
  change (negb (Z.of_nat (length [TInteger pin; TInteger n]) =? 2)) with false.
  cbn [nth term_is_integer term_to_int negb orb].
  unfold bind at 1. unfold ESP_LOGI, emit at 1. fold (logged w n pin).
  unfold bind at 1.
  destruct (free_previous (logged w n pin)) as [[] w0|wa|] eqn:E.
  - eauto.
  - exfalso. exact (free_previous_no_abort _ _ E).
  - discriminate.
Qed.

Lemma calloc_size_nonneg (z k : Z) :
  0 < k -> in_int_range z = true -> (to_size_t z * k <=? PTRDIFF_MAX) = true ->
  0 <= z /\ to_size_t z = z.
Proof.
  unfold in_int_range, to_size_t, INT_MIN, INT_MAX, PTRDIFF_MAX, SIZE_MODULUS.
  intros Hk Hr Hs. apply andb_true_iff in Hr as [H1 H2].
  apply Z.leb_le in H1, H2, Hs.
  destruct (Z_lt_le_dec z 0) as [Hneg|Hpos].
  - exfalso.
    assert (z mod 4294967296 = z + 4294967296) as E.
    { symmetry. apply Z.mod_unique with (q := -1); lia. }
    rewrite E in Hs. nia.
  - split; [lia|]. apply Z.mod_small. lia.
Qed.

(** The outcomes of [nif_rmt_neopixel_init] once the previous session is
    released, one disjunct per return, abort or overflow of the source. *)
Lemma init_outcomes (pin n : Z) (o : init_oracle) (w w0 : world) :
  free_previous (logged w n pin) = Ret tt w0 ->
  let h0 := heap w0 in
  let t0 := trace w0 in
  let p := fresh (dom h0) in
  let px := fresh ({[p]} ∪ dom h0) in
  let it := fresh ({[px]} ∪ ({[p]} ∪ dom h0)) in
  let a1 := EvAlloc sizeof_neopixel_state_t (Some p) in
  let a2 := EvAlloc (3 * n) (Some px) in
  let a3 := EvAlloc (96 * n) (Some it) in
  let rec_ := BState {| pin := pin; num_leds := n;
                        pixels := Some px; items := Some it |} in
  let h3 := <[it := zeroed_items (Z.to_nat (24 * n))]>
              (<[px := zeroed_pixels (Z.to_nat (3 * n))]> (<[p := rec_]> h0)) in
  let out := nif_rmt_neopixel_init [TInteger pin; TInteger n] o w in
  out = Undef \/
  out = Ret MEMORY_ERROR_ATOM
            (World None h0 (t0 ++ [EvAlloc sizeof_neopixel_state_t None])) \/
  (exists b, out = Ret MEMORY_ERROR_ATOM
                       (World None h0 (t0 ++ [a1; EvAlloc b None; EvFree p]))) \/
  (exists b, 0 <= n /\
     out = Ret MEMORY_ERROR_ATOM
               (World None h0
                      (t0 ++ [a1; a2; EvAlloc b None; EvFree px; EvFree p]))) \/
  (0 <= n /\ 24 * n <= INT_MAX /\
   exists c e,
     (out = Aborted (World (Some p) h3
                         (t0 ++ [a1; a2; a3;
                                 EvRmtConfig (rmt_cfg_of pin) (ESP_ERR c);
                                 EvAbort])) \/
      out = Aborted (World (Some p) h3
                         (t0 ++ [a1; a2; a3;
                                 EvRmtConfig (rmt_cfg_of pin) ESP_OK;
                                 EvRmtDriverInstall RMT_CHANNEL 0 0 (ESP_ERR e);
                                 EvAbort])) \/
      out = Ret OK_ATOM
                (World (Some p) h3
                       (t0 ++ [a1; a2; a3;
                               EvRmtConfig (rmt_cfg_of pin) ESP_OK;
                               EvRmtDriverInstall RMT_CHANNEL 0 0 ESP_OK])))).
Proof.
  intros Hfree h0 t0 p px it a1 a2 a3 rec_ h3 out.
  pose proof (init_from pin n o w w0 Hfree) as E. cbv zeta in E.
  fold h0 t0 p px it in E. fold out in E.
  destruct (malloc_state_ok o); cbn [negb] in E; [|right; left; exact E].
  destruct (in_int_range (n * 3)) eqn:R3; cbn [negb] in E; [|left; exact E].
  destruct (calloc_pixels_ok o && _) eqn:A2 in E; cbn [negb] in E;
    [|right; right; left; eexists; exact E].
  apply andb_true_iff in A2 as [_ A2].
  destruct (calloc_size_nonneg (n * 3) sizeof_uint8_t) as [Hn S3];
    [reflexivity|exact R3|exact A2|].
  rewrite S3 in E.
  replace (n * 3 * sizeof_uint8_t) with (3 * n) in E by (unfold sizeof_uint8_t; lia).
  replace (n * 3) with (3 * n) in E by lia.
  destruct (in_int_range (3 * n * 8)) eqn:R24; cbn [negb] in E; [|left; exact E].
  destruct (calloc_items_ok o && _) eqn:A3 in E; cbn [negb] in E.
  2:{ right; right; right; left. eexists. split; [lia|exact E]. }
  apply andb_true_iff in A3 as [_ A3].
  destruct (calloc_size_nonneg (3 * n * 8) sizeof_rmt_item32_t) as [_ S24];
    [reflexivity|exact R24|exact A3|].
  rewrite S24 in E.
  replace (3 * n * 8 * sizeof_rmt_item32_t) with (96 * n) in E
    by (unfold sizeof_rmt_item32_t; lia).
  replace (3 * n * 8) with (24 * n) in E by lia.
  fold a1 a2 a3 rec_ h3 in E.
  right; right; right; right.
  split; [lia|]. split.
  { unfold in_int_range in R24. apply andb_true_iff in R24 as [_ R24].
    apply Z.leb_le in R24. lia. }
  destruct (rmt_config_res o) as [|c].
  - destruct (rmt_driver_install_res o) as [|e].
    + exists 0, 0. right; right. rewrite E, <- app_assoc. reflexivity.
    + exists 0, e. right; left. rewrite E, <- app_assoc. reflexivity.
  - exists c, 0. left. rewrite E, <- app_assoc. reflexivity.
Qed.

Lemma heap_cleared (h : gmap ptr block) (p px it : ptr) :
  dom h = {[p; px; it]} -> delete p (delete it (delete px h)) = ∅.
Proof.
  intros Hd. apply dom_empty_iff_L. rewrite !dom_delete_L, Hd. set_solver.
Qed.

Lemma live_session_logged w p px it P N buf pulses n pin :
  live_session w p px it P N buf pulses ->
  live_session (logged w n pin) p px it P N buf pulses.
Proof. intros [? ? ? ? ? ? ?]. split; assumption. Qed.

(** From a world that satisfies the invariant, releasing the previous
    session empties the heap. *)
Lemma free_previous_inv w n pin :
  world_inv w ->
  exists w0 fr,
    free_previous (logged w n pin) = Ret tt w0 /\
    heap w0 = ∅ /\
    trace w0 = trace w ++ EvLog n pin :: fr /\
    (g_state w = None /\ fr = [] \/
     exists p px it P N buf pulses,
       live_session w p px it P N buf pulses /\
       fr = [EvFree px; EvFree it; EvFree p]).
Proof.
  unfold world_inv. destruct (g_state w) as [p|] eqn:Hg.
  - intros (px & it & P & N & buf & pulses & Hlive & Hdom).
    exists (World (Some p) ∅ (trace w ++ [EvLog n pin; EvFree px; EvFree it; EvFree p])),
      [EvFree px; EvFree it; EvFree p].
    split.
    { rewrite (free_previous_live _ _ _ _ _ _ _ _
                 (live_session_logged _ _ _ _ _ _ _ _ n pin Hlive)).
      cbn [logged heap trace]. rewrite (heap_cleared _ _ _ _ Hdom).
      rewrite <- app_assoc. reflexivity. }
    split; [reflexivity|]. split; [reflexivity|].
    right. eauto 10.
  - intros Hh. exists (logged w n pin), [].
    split; [apply free_previous_none; exact Hg|].
    split; [exact Hh|]. split; [reflexivity|]. left. split; reflexivity.
Qed.

Lemma init_ok_live (pin n : Z) (h0 : gmap ptr block) (w' : world) :
  0 <= n -> 24 * n <= INT_MAX ->
  let p := fresh (dom h0) in
  let px := fresh ({[p]} ∪ dom h0) in
  let it := fresh ({[px]} ∪ ({[p]} ∪ dom h0)) in
  let rec_ := BState {| pin := pin; num_leds := n;
                        pixels := Some px; items := Some it |} in
  let h3 := <[it := zeroed_items (Z.to_nat (24 * n))]>
              (<[px := zeroed_pixels (Z.to_nat (3 * n))]> (<[p := rec_]> h0)) in
  g_state w' = Some p -> heap w' = h3 ->
  live_session w' p px it pin n
    (replicate (Z.to_nat (3 * n)) x00%byte)
    (replicate (Z.to_nat (24 * n)) zero_item) /\
  dom (heap w') = {[p; px; it]} ∪ dom h0.
Proof.
  intros Hn Hr p px it rec_ h3 Hg Hh.
  assert (px <> p) as Hpxp.
  { pose proof (is_fresh ({[p]} ∪ dom h0)) as Hf. fold px in Hf. set_solver. }
  assert (it <> px /\ it <> p) as (Hitpx & Hitp).
  { pose proof (is_fresh ({[px]} ∪ ({[p]} ∪ dom h0))) as Hf. fold it in Hf.
    split; set_solver. }
  split.
  - split.
    + exact Hg.
    + rewrite Hh. unfold h3. rewrite !lookup_insert_ne by done.
      apply lookup_insert_eq.
    + rewrite Hh. unfold h3. rewrite lookup_insert_ne by done.
      apply lookup_insert_eq.
    + rewrite Hh. unfold h3. apply lookup_insert_eq.
    + rewrite length_replicate. lia.
    + rewrite length_replicate. lia.
    + exact Hr.
  - rewrite Hh. unfold h3. rewrite !dom_insert_L. set_solver.
Qed.

Lemma world_inv_init argv o w r w' :
  world_inv w -> nif_rmt_neopixel_init argv o w = Ret r w' -> world_inv w'.
Proof.
  intros Hinv Hrun.
  destruct (init_argv_cases argv) as [Hlen|[(a & b & -> & Hty)|(pin & n & ->)]].
  - rewrite init_arity in Hrun by exact Hlen. injection Hrun as _ <-. exact Hinv.
  - rewrite init_badarg in Hrun by exact Hty. injection Hrun as _ <-. exact Hinv.
  - destruct (free_previous_inv w n pin Hinv) as (w0 & fr & Hfree & Hh0 & _ & _).
    pose proof (init_outcomes pin n o w w0 Hfree) as Hout. cbv zeta in Hout.
    rewrite Hrun, Hh0 in Hout.
    destruct Hout as [H|[H|[(b & H)|[(b & _ & H)|(Hn & Hr & c & e & [H|[H|H]])]]]];
      try discriminate; injection H as _ Hw'.
    1-3: rewrite Hw'; reflexivity.
    destruct (init_ok_live pin n ∅ w' Hn Hr) as [Hlive Hdom];
      [rewrite Hw'; reflexivity ..|].
    unfold world_inv. rewrite (live_g_state _ _ _ _ _ _ _ _ Hlive).
    do 6 eexists. split; [exact Hlive|].
    rewrite Hdom, dom_empty_L. set_solver.
Qed.

Lemma show_live_preserved w p px it P N buf pulses data o w' :
  live_session w p px it P N buf pulses ->
  world_of (nif_rmt_neopixel_show [TBinary data] o w) = Some w' ->
  let c := Nat.min (length data) (length buf) in
  live_session w' p px it P N
    (take c data ++ drop c buf)
    (spec_encode (take c data) ++ drop (8 * c) pulses) /\
  dom (heap w') = dom (heap w) /\
  (forall q, q <> px -> q <> it -> heap w' !! q = heap w !! q).
Proof.
  intros Hlive Hrun c.
  destruct (live_distinct _ _ _ _ _ _ _ _ Hlive) as (Hppx & Hpit & Hpxit).
  rewrite (show_live _ _ _ _ _ _ _ _ data o Hlive) in Hrun. cbv zeta in Hrun.
  fold c in Hrun.
  destruct Hlive as [Hg Hrec Hpx Hit Hlb Hlp Hr].
  assert (heap w' = <[it := BItems (spec_encode (take c data) ++ drop (8 * c) pulses)]>
                      (<[px := BPixels (take c data ++ drop c buf)]> (heap w))
          /\ g_state w' = g_state w) as [Hh Hg'].
  { destruct (rmt_write_items_res o); [destruct (rmt_wait_tx_done_res o)|];
      injection Hrun as <-; split; reflexivity. }
  clear Hrun. split; [split|split].
  - congruence.
  - rewrite Hh, !lookup_insert_ne by done. exact Hrec.
  - rewrite Hh, lookup_insert_ne by done. apply lookup_insert_eq.
  - rewrite Hh. apply lookup_insert_eq.
  - rewrite <- Hlb, length_app, length_take, length_drop. lia.
  - rewrite <- Hlp, length_app, spec_encode_length, length_take, length_drop. lia.
  - exact Hr.
  - rewrite Hh, !dom_insert_L.
    assert (px ∈ dom (heap w)) by (apply elem_of_dom; eauto).
    assert (it ∈ dom (heap w)) by (apply elem_of_dom; eauto).
    set_solver.
  - intros q Hq1 Hq2. rewrite Hh, !lookup_insert_ne by done. reflexivity.
Qed.

Lemma world_inv_show argv o w r w' :
  world_inv w -> nif_rmt_neopixel_show argv o w = Ret r w' -> world_inv w'.
Proof.
  intros Hinv Hrun.
  destruct (show_argv_cases argv) as [Hlen|[(a & -> & Hty)|(data & ->)]].
  - rewrite show_arity in Hrun by exact Hlen. injection Hrun as _ <-. exact Hinv.
  - rewrite show_badarg in Hrun by exact Hty. injection Hrun as _ <-. exact Hinv.
  - unfold world_inv in Hinv. destruct (g_state w) as [p|] eqn:Hg.
    + destruct Hinv as (px & it & P & N & buf & pulses & Hlive & Hdom).
      assert (world_of (nif_rmt_neopixel_show [TBinary data] o w) = Some w') as Hw
        by (rewrite Hrun; reflexivity).
      destruct (show_live_preserved _ _ _ _ _ _ _ _ data o w' Hlive Hw)
        as (Hlive' & Hdom' & _).
      unfold world_inv. rewrite (live_g_state _ _ _ _ _ _ _ _ Hlive').
      do 6 eexists. split; [exact Hlive'|]. congruence.
    + rewrite show_no_session in Hrun by exact Hg. injection Hrun as _ <-.
      unfold world_inv. rewrite Hg. exact Hinv.
Qed.

Lemma reachable_inv w : reachable w -> world_inv w.
Proof.
  induction 1 as [|w c r w' _ IH Hrun].
  - reflexivity.
  - destruct c as [argv o|argv o]; cbn [run_call] in Hrun.
    + exact (world_inv_init _ _ _ _ _ IH Hrun).
    + exact (world_inv_show _ _ _ _ _ IH Hrun).
Qed.

End Stepping.

(** ** Traces, example worlds and runs *)

Section Runs.

Lemma new_events_app (w w' : world) (l : list event) :
  trace w' = trace w ++ l -> new_events w w' = l.
Proof. intros E. unfold new_events. rewrite E. apply drop_app_length. Qed.

Lemma new_events_same (w : world) : new_events w w = [].
Proof. unfold new_events. apply drop_all. Qed.

Lemma rmt_configs_of_frees (fr : list event) :
  Forall (fun e => is_free e = true) fr -> rmt_configs_of fr = [].
Proof.
  induction 1 as [|e fr He _ IH]; [reflexivity|].
  destruct e; try discriminate. exact IH.
Qed.

Lemma rmt_configs_of_app (l1 l2 : list event) :
  rmt_configs_of (l1 ++ l2) = rmt_configs_of l1 ++ rmt_configs_of l2.
Proof. apply flat_map_app. Qed.

Lemma existsb_frees (f : event -> bool) (fr : list event) :
  (forall q, f (EvFree q) = false) ->
  Forall (fun e => is_free e = true) fr -> existsb f fr = false.
Proof.
  intros Hf. induction 1 as [|e fr He _ IH]; [reflexivity|].
  destruct e; try discriminate. cbn. rewrite Hf. exact IH.
Qed.

Lemma one_led_world_live :
  live_session one_led_world 1%positive 2%positive 3%positive 5 1
    (replicate 3 x00%byte) (replicate 24 zero_item).
Proof. split; vm_compute; first [reflexivity | discriminate]. Qed.

Lemma two_led_world_live :
  live_session two_led_world 1%positive 2%positive 3%positive 5 2
    (replicate 6 x00%byte) (replicate 48 zero_item).
Proof. split; vm_compute; first [reflexivity | discriminate]. Qed.

Lemma one_led_world_reachable : reachable one_led_world.
Proof.
  apply (reachable_step initial_world
           (CallInit [TInteger 5; TInteger 1] all_ok_init) OK_ATOM).
  - exact reachable_initial.
  - vm_compute. reflexivity.
Qed.

Lemma init_not_ok (argv : list term) (o : init_oracle) (w w' : world) (r : term) :
  nif_rmt_neopixel_init argv o w = Ret r w' -> r <> OK_ATOM ->
  w' = w \/ (r = MEMORY_ERROR_ATOM /\ g_state w' = None).
Proof.
  intros Hrun Hr.
  destruct (init_argv_cases argv) as [Hlen|[(a & b & -> & Hty)|(pin & n & ->)]].
  - rewrite init_arity in Hrun by exact Hlen. injection Hrun as _ <-. left; reflexivity.
  - rewrite init_badarg in Hrun by exact Hty. injection Hrun as _ <-. left; reflexivity.
  - destruct (init_defined pin n o w w') as [w0 Hfree]; [rewrite Hrun; reflexivity|].
    pose proof (init_outcomes pin n o w w0 Hfree) as Hout. cbv zeta in Hout.
    rewrite Hrun in Hout.
    destruct Hout as [H|[H|[(b & H)|[(b & _ & H)|(Hn & Hr' & c & e & [H|[H|H]])]]]];
      try discriminate; injection H as -> ->; try (right; split; reflexivity).
    contradiction Hr. reflexivity.
Qed.

Lemma show_none_unchanged (argv : list term) (o : show_oracle) (w w' : world) (r : term) :
  g_state w = None -> nif_rmt_neopixel_show argv o w = Ret r w' -> w' = w.
Proof.
  intros Hg Hrun.
  destruct (show_argv_cases argv) as [Hlen|[(a & -> & Hty)|(data & ->)]].
  - rewrite show_arity in Hrun by exact Hlen. injection Hrun as _ <-. reflexivity.
  - rewrite show_badarg in Hrun by exact Hty. injection Hrun as _ <-. reflexivity.
  - rewrite show_no_session in Hrun by exact Hg. injection Hrun as _ <-. reflexivity.
Qed.

Lemma run_without_ok_init (cs : list call) : forall (w : world) (rs : list term) (w' : world),
  g_state w = None -> run cs w = Ret rs w' ->
  (forall i argv o, cs !! i = Some (CallInit argv o) -> rs !! i <> Some OK_ATOM) ->
  g_state w' = None.
Proof.
  induction cs as [|c cs IH]; intros w rs w' Hg Hrun Hno.
  - injection Hrun as _ <-. exact Hg.
  - cbn [run] in Hrun.
    destruct (run_call c w) as [r w1| |] eqn:Hc; try discriminate.
    destruct (run cs w1) as [rs1 w2| |] eqn:Hcs; try discriminate.
    injection Hrun as <- <-.
    apply (IH w1 rs1 w2); [|exact Hcs|].
    + destruct c as [argv o|argv o]; cbn [run_call] in Hc.
      * destruct (init_not_ok argv o w w1 r Hc) as [->|[_ Hn]];
          [|exact Hg|exact Hn].
        intros ->. exact (Hno 0%nat argv o eq_refl eq_refl).
      * rewrite (show_none_unchanged argv o w w1 r Hg Hc). exact Hg.
    + intros i argv o Hi. exact (Hno (S i) argv o Hi).
Qed.

Lemma in_int_range_3_of_24 (n : Z) :
  in_int_range (n * 3 * 8) = true -> in_int_range (n * 3) = true.
Proof.
  unfold in_int_range, INT_MIN, INT_MAX. intros H.
  apply andb_true_iff in H as [H1 H2]. apply Z.leb_le in H1, H2.
  apply andb_true_iff. split; apply Z.leb_le; lia.
Qed.

(** An [init] whose allocator refuses a request that the call makes
    returns, with [MEMORY_ERROR_ATOM]. *)
Lemma init_refused_returns (w : world) (pin n : Z) (o : init_oracle) :
  world_inv w ->
  malloc_state_ok o = false \/
  (in_int_range (n * 3) = true /\ calloc_pixels_ok o = false) \/
  (in_int_range (n * 3 * 8) = true /\ calloc_items_ok o = false) ->
  exists w',
    nif_rmt_neopixel_init [TInteger pin; TInteger n] o w
    = Ret MEMORY_ERROR_ATOM w' /\
    existsb is_alloc_failure (new_events w w') = true.
Proof.
  intros Hinv Hcase.
  destruct (free_previous_inv w n pin Hinv) as (w0 & fr & Hfree & _ & Htr & _).
  pose proof (init_from pin n o w w0 Hfree) as E. cbv zeta in E.
  assert (forall evs g h,
             existsb is_alloc_failure evs = true ->
             existsb is_alloc_failure
               (new_events w (World g h (trace w0 ++ evs))) = true) as Hev.
  { intros evs g h He. unfold new_events. cbn [trace].
    rewrite Htr, <- app_assoc, drop_app_length, existsb_app, He.
    apply orb_true_r. }
  destruct (malloc_state_ok o) eqn:O1; cbn [negb] in E.
  2:{ eexists. split; [exact E|]. apply Hev. reflexivity. }
  assert (in_int_range (n * 3) = true /\
          (calloc_pixels_ok o = false \/
           in_int_range (n * 3 * 8) = true /\ calloc_items_ok o = false))
    as [R3 Hcase'].
  { destruct Hcase as [H|[[H1 H2]|[H1 H2]]]; [discriminate| |].
    - split; [exact H1|left; exact H2].
    - split; [apply in_int_range_3_of_24; exact H1|right; split; assumption]. }
  rewrite R3 in E. cbn [negb] in E.
  destruct (calloc_pixels_ok o && _) eqn:A2 in E; cbn [negb] in E.
  2:{ eexists. split; [exact E|]. apply Hev. reflexivity. }
  destruct Hcase' as [H|[R24 O3]].
  { rewrite H in A2. discriminate. }
  rewrite R24, O3 in E. cbn [negb andb] in E.
  eexists. split; [exact E|]. apply Hev. reflexivity.
Qed.

(** What a call of [init] in which an allocation failed leaves behind. *)
Lemma init_failure_cleanup
    (w : world) (argv : list term) (o : init_oracle) (w' : world) :
  reachable w ->
  world_of (nif_rmt_neopixel_init argv o w) = Some w' ->
  existsb is_alloc_failure (new_events w w') = true ->
  nif_rmt_neopixel_init argv o w = Ret MEMORY_ERROR_ATOM w' /\
  g_state w' = None /\
  heap w' = ∅ /\
  (forall q : ptr, q ∈ allocated_by (new_events w w') ->
                   q ∈ freed_by (new_events w w')) /\
  (forall data o', nif_rmt_neopixel_show [TBinary data] o' w'
                   = Ret ERROR_ATOM w').
Proof.
  intros Hreach Hw Hfail. apply reachable_inv in Hreach.
  destruct (init_argv_cases argv) as [Hlen|[(a & b & -> & Hty)|(pin & n & ->)]].
  - rewrite init_arity in Hw by exact Hlen. injection Hw as <-.
    rewrite new_events_same in Hfail. discriminate.
  - rewrite init_badarg in Hw by exact Hty. injection Hw as <-.
    rewrite new_events_same in Hfail. discriminate.
  - destruct (free_previous_inv w n pin Hreach)
      as (w0 & fr & Hfree & Hh0 & Htr & Hfr).
    assert (existsb is_alloc_failure fr = false /\ allocated_by fr = []) as [Hfr1 Hfr2].
    { destruct Hfr as [[_ ->]|(p & px & it & P & N & buf & pulses & _ & ->)];
        split; reflexivity. }
    pose proof (init_outcomes pin n o w w0 Hfree) as Hout. cbv zeta in Hout.
    rewrite Hh0, Htr in Hout.
    set (out := nif_rmt_neopixel_init [TInteger pin; TInteger n] o w) in *.
    destruct Hout as [H|[H|[(b & H)|[(b & _ & H)|(Hn & Hr & c & e & [H|[H|H]])]]]];
      rewrite H in Hw; try discriminate; injection Hw as <-;
      unfold new_events in Hfail |- *; cbn [trace] in Hfail |- *;
      rewrite <- app_assoc, drop_app_length in Hfail |- *;
      cbn [app] in Hfail |- *;
      cbn [existsb is_alloc_failure orb] in Hfail;
      rewrite existsb_app, Hfr1 in Hfail;
      cbn [existsb is_alloc_failure orb] in Hfail; try discriminate.
    all: split; [rewrite H, <- app_assoc; reflexivity|];
      split; [reflexivity|]; split; [reflexivity|]; split;
      [|intros data o'; apply show_no_session; reflexivity].
    all: intros q; unfold allocated_by, freed_by;
      cbn [flat_map app]; rewrite !flat_map_app; fold (allocated_by fr);
      rewrite Hfr2; cbn [flat_map app]; set_solver.
Qed.

End Runs.

(** * Main results *)

(** C1. For every byte sequence [buf] and every destination with room for
    [8 * length buf] items, [neopixel_buf_to_rmt_items] returns, and what it
    leaves in the destination is: exactly 8 pulse descriptors per input byte,
    in order, the [j]-th descriptor of byte [i] at index [8 * i + j] and
    encoding bit [7 - j] of that byte (most significant bit first). A set bit
    gives high duration T1H and low duration T1L, a clear bit T0H and T0L;
    in every descriptor the first phase is at level 1 and the second at
    level 0. Nothing at or beyond index [8 * length buf] is written. *)
Theorem encoder_emits_eight_pulses_per_byte_msb_first
    (buf : list byte) (dst : list rmt_item32_t) :
  (8 * length buf <= length dst)%nat ->
  exists out,
    neopixel_buf_to_rmt_items buf (Z.of_nat (length buf)) dst = Some out /\
    length out = length dst /\
    take (8 * length buf) out = spec_encode buf /\
    length (spec_encode buf) = (8 * length buf)%nat /\
    (forall (i j : nat) (b : byte),
        buf !! i = Some b -> (j < 8)%nat ->
        out !! (8 * i + j)%nat
        = Some {| level0 := 1;
                  duration0 := if Z.testbit (uint8 b) (7 - Z.of_nat j)
                               then T1H else T0H;
                  level1 := 0;
                  duration1 := if Z.testbit (uint8 b) (7 - Z.of_nat j)
                               then T1L else T0L |}) /\
    (forall k : nat, (8 * length buf <= k)%nat -> out !! k = dst !! k).
Proof.
  intros Hlen.
  pose proof (spec_encode_length buf) as Hsl.
  exists (spec_encode buf ++ drop (8 * length buf) dst).
  split.
  { rewrite neopixel_buf_to_rmt_items_prefix by lia.
    rewrite firstn_all. reflexivity. }
  split.
  { rewrite length_app, length_drop, Hsl. lia. }
  split.
  { rewrite take_app_length'; [reflexivity|symmetry; exact Hsl]. }
  split; [exact Hsl|]. split.
  - intros i j b Hb Hj.
    pose proof (lookup_lt_Some _ _ _ Hb) as Hi.
    rewrite lookup_app_l by lia. rewrite spec_encode_lookup.
    destruct (decide _); [|lia].
    replace ((8 * i + j) / 8)%nat with i
      by (apply Nat.div_unique with (r := j); lia).
    replace ((8 * i + j) mod 8)%nat with j
      by (apply Nat.mod_unique with (q := i); lia).
    rewrite Hb. reflexivity.
  - intros k Hk. rewrite lookup_app_r by lia. rewrite Hsl, lookup_drop.
    f_equal. lia.
Qed.

(** The bytes [0xFF 0x00 0x80] into a destination of 24 items. *)
Lemma encoder_emits_eight_pulses_per_byte_msb_first_witness :
  exists out,
    neopixel_buf_to_rmt_items [xff; x00; x80]%byte 3 (replicate 24 zero_item)
    = Some out /\
    length out = 24%nat /\
    take 24 out = spec_encode [xff; x00; x80]%byte.
Proof.
  destruct (encoder_emits_eight_pulses_per_byte_msb_first
              [xff; x00; x80]%byte (replicate 24 zero_item))
    as (out & Hrun & Hlen & Htake & _); [vm_compute; lia|].
  exists out. split; [exact Hrun|]. split; [exact Hlen|exact Htake].
Defined.

(** C2. In a world with a live session for [N] LEDs, [show] of more than
    [3 * N] bytes does exactly what [show] of the first [3 * N] bytes does:
    the bytes beyond are not read. It never returns an error term; when
    the two driver calls report [ESP_OK] it returns [OK_ATOM], the pixel
    buffer holds the first [3 * N] bytes, the pulse buffer their encoding,
    and the driver was handed exactly [3 * N * 8] descriptors. *)
Theorem show_truncates_oversized_input
    (w : world) (p px it : ptr) (P N : Z) (buf : list byte)
    (pulses : list rmt_item32_t) (data : list byte) (o : show_oracle) :
  live_session w p px it P N buf pulses ->
  3 * N < Z.of_nat (length data) ->
  let kept := take (Z.to_nat (3 * N)) data in
  nif_rmt_neopixel_show [TBinary data] o w
  = nif_rmt_neopixel_show [TBinary kept] o w /\
  (forall r w', nif_rmt_neopixel_show [TBinary data] o w = Ret r w' ->
                r = OK_ATOM) /\
  (rmt_write_items_res o = ESP_OK -> rmt_wait_tx_done_res o = ESP_OK ->
   exists w',
     nif_rmt_neopixel_show [TBinary data] o w = Ret OK_ATOM w' /\
     live_session w' p px it P N kept (spec_encode kept) /\
     new_events w w'
     = [EvRmtWriteItems RMT_CHANNEL (spec_encode kept) (3 * N * 8) false ESP_OK;
        EvRmtWaitTxDone RMT_CHANNEL 100 ESP_OK] /\
     Z.of_nat (length (spec_encode kept)) = 3 * N * 8).
Proof.
  intros Hlive Hlong kept.
  pose proof (live_pixels_len _ _ _ _ _ _ _ _ Hlive) as Hlb.
  pose proof (live_items_len _ _ _ _ _ _ _ _ Hlive) as Hlp.
  assert (Z.to_nat (3 * N) = length buf) as Hn by lia.
  assert (length kept = length buf) as Hlk.
  { unfold kept. rewrite length_take. lia. }
  pose proof (show_live w p px it P N buf pulses data o Hlive) as E1.
  pose proof (show_live w p px it P N buf pulses kept o Hlive) as E2.
  cbv zeta in E1, E2.
  rewrite Hlk, Nat.min_id in E2.
  replace (Nat.min (length data) (length buf)) with (length buf) in E1 by lia.
  rewrite firstn_all2 in E2 by lia.
  fold kept in E1. rewrite <- Hn in E1. fold kept in E1. rewrite Hn in E1.
  rewrite drop_all in E1, E2. rewrite app_nil_r in E1, E2.
  assert (drop (8 * length buf) pulses = []) as Hd by (apply drop_ge; lia).
  rewrite Hd, app_nil_r in E1, E2.
  replace (Z.of_nat (length buf) * 8) with (3 * N * 8) in E1, E2 by lia.
  split; [congruence|]. split.
  - intros r w' Hr. rewrite E1 in Hr.
    destruct (rmt_write_items_res o); [|discriminate].
    destruct (rmt_wait_tx_done_res o); [|discriminate].
    injection Hr as <- _. reflexivity.
  - intros O1 O2. rewrite O1, O2 in E1. eexists. split; [exact E1|].
    assert (world_of (nif_rmt_neopixel_show [TBinary data] o w) = Some
      (World (g_state w)
         (<[it:=BItems (spec_encode kept)]> (<[px:=BPixels kept]> (heap w)))
         (trace w ++
          [EvRmtWriteItems RMT_CHANNEL (spec_encode kept) (3 * N * 8) false ESP_OK;
           EvRmtWaitTxDone RMT_CHANNEL 100 ESP_OK]))) as Hw
      by (rewrite E1; reflexivity).
    destruct (show_live_preserved _ _ _ _ _ _ _ _ data o _ Hlive Hw) as (Hl' & _).
    cbv zeta in Hl'.
    replace (Nat.min (length data) (length buf)) with (length buf) in Hl' by lia.
    rewrite <- Hn in Hl'. fold kept in Hl'. rewrite Hn in Hl'.
    rewrite drop_all, app_nil_r, Hd, app_nil_r in Hl'.
    split; [exact Hl'|]. split.
    + apply new_events_app. reflexivity.
    + rewrite spec_encode_length. lia.
Qed.

(** Five bytes shown on a strip of one LED. *)
Lemma show_truncates_oversized_input_witness :
  let data := [xff; x00; x80; x12; x34]%byte in
  let kept := [xff; x00; x80]%byte in
  nif_rmt_neopixel_show [TBinary data] all_ok_show one_led_world
  = nif_rmt_neopixel_show [TBinary kept] all_ok_show one_led_world /\
  exists w',
    nif_rmt_neopixel_show [TBinary data] all_ok_show one_led_world
    = Ret OK_ATOM w' /\
    new_events one_led_world w'
    = [EvRmtWriteItems RMT_CHANNEL (spec_encode kept) 24 false ESP_OK;
       EvRmtWaitTxDone RMT_CHANNEL 100 ESP_OK].
Proof.
  intros data kept.
  destruct (show_truncates_oversized_input one_led_world _ _ _ _ _ _ _
              data all_ok_show one_led_world_live)
    as (Heq & _ & Hok); [vm_compute; reflexivity|].
  split; [exact Heq|].
  destruct (Hok eq_refl eq_refl) as (w' & Hrun & _ & Hev & _).
  exists w'. split; [exact Hrun|exact Hev].
Defined.

(** C3. In a world with a live session for [N] LEDs, [show] of fewer
    than [3 * N] bytes ends in a world (whether it returns or the driver
    makes it abort) where the session record still holds pin [P] and LED
    count [N], pixel-buffer positions below [length data] hold the data and
    those at or above keep their previous value, pulse-buffer entries below
    [8 * length data] hold the encoding of the data and those at or above
    keep their previous value, and every other block of the heap is
    untouched. *)
Theorem show_short_input_carries_over
    (w : world) (p px it : ptr) (P N : Z) (buf : list byte)
    (pulses : list rmt_item32_t) (data : list byte) (o : show_oracle) :
  live_session w p px it P N buf pulses ->
  Z.of_nat (length data) < 3 * N ->
  exists w' buf' pulses',
    world_of (nif_rmt_neopixel_show [TBinary data] o w) = Some w' /\
    live_session w' p px it P N buf' pulses' /\
    (forall k : nat, (k < length data)%nat -> buf' !! k = data !! k) /\
    (forall k : nat, (length data <= k)%nat -> buf' !! k = buf !! k) /\
    (forall k : nat, (k < 8 * length data)%nat ->
                     pulses' !! k = spec_encode data !! k) /\
    (forall k : nat, (8 * length data <= k)%nat -> pulses' !! k = pulses !! k) /\
    (forall q : ptr, q <> px -> q <> it -> heap w' !! q = heap w !! q).
Proof.
  intros Hlive Hshort.
  pose proof (live_pixels_len _ _ _ _ _ _ _ _ Hlive) as Hlb.
  assert (exists w', world_of (nif_rmt_neopixel_show [TBinary data] o w) = Some w')
    as [w' Hw].
  { rewrite (show_live _ _ _ _ _ _ _ _ data o Hlive). cbv zeta.
    destruct (rmt_write_items_res o); [destruct (rmt_wait_tx_done_res o)|];
      eexists; reflexivity. }
  destruct (show_live_preserved _ _ _ _ _ _ _ _ data o w' Hlive Hw)
    as (Hlive' & _ & Hframe).
  cbv zeta in Hlive'.
  replace (Nat.min (length data) (length buf)) with (length data) in Hlive' by lia.
  rewrite firstn_all in Hlive'.
  pose proof (spec_encode_length data) as Hsl.
  exists w', (data ++ drop (length data) buf),
    (spec_encode data ++ drop (8 * length data) pulses).
  split; [exact Hw|]. split; [exact Hlive'|].
  split; [|split; [|split; [|split]]].
  - intros k Hk. apply lookup_app_l. exact Hk.
  - intros k Hk. rewrite lookup_app_r by exact Hk. rewrite lookup_drop.
    f_equal. lia.
  - intros k Hk. apply lookup_app_l. lia.
  - intros k Hk. rewrite lookup_app_r by lia. rewrite Hsl, lookup_drop.
    f_equal. lia.
  - exact Hframe.
Qed.

(** Three bytes shown on a strip of two LEDs: the second LED's three
    bytes and 24 descriptors are as they were. *)
Lemma show_short_input_carries_over_witness :
  exists w' buf' pulses',
    world_of (nif_rmt_neopixel_show [TBinary [x01; x02; x03]%byte]
                all_ok_show two_led_world) = Some w' /\
    live_session w' 1%positive 2%positive 3%positive 5 2 buf' pulses' /\
    (forall k : nat, (3 <= k)%nat -> buf' !! k = replicate 6 x00%byte !! k) /\
    (forall k : nat, (24 <= k)%nat -> pulses' !! k = replicate 48 zero_item !! k).
Proof.
  destruct (show_short_input_carries_over two_led_world _ _ _ _ _ _ _
              [x01; x02; x03]%byte all_ok_show two_led_world_live)
    as (w' & buf' & pulses' & Hw & Hl & _ & Hb & _ & Hp & _);
    [vm_compute; reflexivity|].
  exists w', buf', pulses'.
  split; [exact Hw|]. split; [exact Hl|]. split; [exact Hb|exact Hp].
Defined.

(** C4, amended. When no session is live, [show] of any binary returns
    [ERROR_ATOM] and leaves the world as it was (no buffer written, no event,
    hence no driver call). No session is live in the initial world, after
    an [init] that returned [MEMORY_ERROR_ATOM], and after any run of calls
    in which no [init] returned [OK_ATOM]. An [init] that fails on its
    arguments is another matter: with a wrong argument count it returns
    [BADARITY], with an argument that is not an integer [BADARG], and in
    both cases (and only then does it return one of the two) the world is
    left exactly as it was; a session that was live stays live, with its
    buffers, and a [show] after it returns [OK_ATOM] when the driver
    answers [ESP_OK], not [ERROR_ATOM]. *)
Theorem show_without_a_session_fails_without_effect :
  g_state initial_world = None /\
  (forall (w : world) (data : list byte) (o : show_oracle),
      g_state w = None ->
      nif_rmt_neopixel_show [TBinary data] o w = Ret ERROR_ATOM w) /\
  (forall (w : world) (argv : list term) (o : init_oracle) (w' : world),
      nif_rmt_neopixel_init argv o w = Ret MEMORY_ERROR_ATOM w' ->
      g_state w' = None) /\
  (forall (cs : list call) (rs : list term) (w : world),
      run cs initial_world = Ret rs w ->
      (forall i argv o, cs !! i = Some (CallInit argv o) ->
                        rs !! i <> Some OK_ATOM) ->
      g_state w = None) /\
  (forall (w : world) (argv : list term) (o : init_oracle),
      length argv <> 2%nat ->
      nif_rmt_neopixel_init argv o w = Ret BADARITY w) /\
  (forall (w : world) (a b : term) (o : init_oracle),
      term_is_integer a = false \/ term_is_integer b = false ->
      nif_rmt_neopixel_init [a; b] o w = Ret BADARG w) /\
  (forall (w : world) (argv : list term) (o : init_oracle) (r : term)
          (w' : world),
      nif_rmt_neopixel_init argv o w = Ret r w' ->
      r = BADARITY \/ r = BADARG ->
      w' = w) /\
  (forall (w : world) (p px it : ptr) (P N : Z) (buf : list byte)
          (pulses : list rmt_item32_t) (argv : list term) (o : init_oracle)
          (r : term) (w' : world) (data : list byte) (o' : show_oracle),
      live_session w p px it P N buf pulses ->
      nif_rmt_neopixel_init argv o w = Ret r w' ->
      r = BADARITY \/ r = BADARG ->
      rmt_write_items_res o' = ESP_OK ->
      rmt_wait_tx_done_res o' = ESP_OK ->
      live_session w' p px it P N buf pulses /\
      exists w'' : world,
        nif_rmt_neopixel_show [TBinary data] o' w' = Ret OK_ATOM w'' /\
        nif_rmt_neopixel_show [TBinary data] o' w' <> Ret ERROR_ATOM w' /\
        submitted_by (new_events w' w'')
        = [(spec_encode (take (Nat.min (length data) (length buf)) data),
            Z.of_nat (Nat.min (length data) (length buf)) * 8)]).
Proof.
  assert (forall (w : world) (argv : list term) (o : init_oracle) (r : term)
                 (w' : world),
             nif_rmt_neopixel_init argv o w = Ret r w' ->
             r = BADARITY \/ r = BADARG -> w' = w) as Hsame.
  { intros w argv o r w' Hrun Hr.
    destruct (init_not_ok argv o w w' r Hrun) as [->|[-> _]];
      [destruct Hr as [-> | ->]; discriminate|reflexivity|].
    destruct Hr; discriminate. }
  split; [reflexivity|]. split; [|split; [|split; [|split; [|split; [|split]]]]].
  - intros w data o. apply show_no_session.
  - intros w argv o w' Hrun.
    destruct (init_not_ok argv o w w' _ Hrun) as [->|[_ Hn]];
      [discriminate| |exact Hn].
    destruct (init_argv_cases argv) as [Hlen|[(a & b & -> & Hty)|(pin & n & ->)]].
    + rewrite init_arity in Hrun by exact Hlen. discriminate.
    + rewrite init_badarg in Hrun by exact Hty. discriminate.
    + destruct (init_defined pin n o w w) as [w0 Hfree]; [rewrite Hrun; reflexivity|].
      pose proof (init_outcomes pin n o w w0 Hfree) as Hout. cbv zeta in Hout.
      rewrite Hrun in Hout.
      destruct Hout as [H|[H|[(b & H)|[(b & _ & H)|(Hn & Hr' & c & e & [H|[H|H]])]]]];
        try discriminate; injection H as ->; reflexivity.
  - intros cs rs w. apply run_without_ok_init. reflexivity.
  - intros w argv o. apply init_arity.
  - intros w a b o. apply init_badarg.
  - exact Hsame.
  - intros w p px it P N buf pulses argv o r w' data o' Hlive Hrun Hr O1 O2.
    rewrite (Hsame w argv o r w' Hrun Hr). split; [exact Hlive|].
    pose proof (show_live w p px it P N buf pulses data o' Hlive) as E.
    cbv zeta in E. rewrite O1, O2 in E.
    eexists. split; [exact E|]. split.
    + rewrite E. discriminate.
    + unfold new_events. cbn [trace]. rewrite drop_app_length. reflexivity.
Qed.

(** In the initial world, after an out-of-memory [init], after a run
    without a successful [init]; and a one-LED session that outlives an
    [init] with one argument. *)
Lemma show_without_a_session_fails_without_effect_witness :
  nif_rmt_neopixel_show [TBinary [x01%byte]] all_ok_show initial_world
  = Ret ERROR_ATOM initial_world /\
  g_state (world_after (nif_rmt_neopixel_init [TInteger 5; TInteger 1]
                          no_items_init one_led_world)) = None /\
  g_state (world_after (run [CallShow [TBinary []] all_ok_show;
                             CallInit [TInteger 5] all_ok_init;
                             CallInit [TInteger 5; TInteger 1] no_items_init]
                            initial_world)) = None /\
  nif_rmt_neopixel_init [TInteger 5] all_ok_init one_led_world
  = Ret BADARITY one_led_world /\
  nif_rmt_neopixel_init [TInteger 5; TOther] all_ok_init one_led_world
  = Ret BADARG one_led_world /\
  live_session one_led_world 1%positive 2%positive 3%positive 5 1
    (replicate 3 x00%byte) (replicate 24 zero_item) /\
  exists w'' : world,
    nif_rmt_neopixel_show [TBinary [xff%byte]] all_ok_show one_led_world
    = Ret OK_ATOM w''.
Proof.
  destruct show_without_a_session_fails_without_effect
    as (_ & H2 & H3 & H4 & H5 & H6 & _ & H8).
  split; [apply H2; reflexivity|]. split; [|split; [|split; [|split]]].
  - apply (H3 one_led_world [TInteger 5; TInteger 1] no_items_init).
    vm_compute. reflexivity.
  - apply (H4 [CallShow [TBinary []] all_ok_show;
               CallInit [TInteger 5] all_ok_init;
               CallInit [TInteger 5; TInteger 1] no_items_init]
              [ERROR_ATOM; BADARITY; MEMORY_ERROR_ATOM]).
    + vm_compute. reflexivity.
    + intros [|[|[|i]]] argv o Hi; try discriminate.
  - apply H5. cbn. lia.
  - apply H6. right. reflexivity.
  - destruct (H8 one_led_world _ _ _ _ _ _ _ [TInteger 5] all_ok_init BADARITY
                 one_led_world [xff%byte] all_ok_show one_led_world_live)
      as (Hl & w'' & Hrun & _ & _);
      [vm_compute; reflexivity|left; reflexivity|reflexivity|reflexivity|].
    split; [exact Hl|]. exists w''. exact Hrun.
Defined.

(** C4 as stated ("or the last initialize failed") fails: after a
    successful [init(5, 1)], an [init] with one argument fails with
    [BADARITY] and leaves the session in place; the following [show]
    returns [OK_ATOM], writes the pixel buffer and calls the driver. *)
Lemma show_after_a_rejected_init_still_transmits :
  exists w2 : world,
    run [CallInit [TInteger 5; TInteger 1] all_ok_init;
         CallInit [TInteger 5] all_ok_init;
         CallShow [TBinary [xff%byte]] all_ok_show] initial_world
    = Ret [OK_ATOM; BADARITY; OK_ATOM] w2 /\
    nif_rmt_neopixel_init [TInteger 5] all_ok_init one_led_world
    = Ret BADARITY one_led_world /\
    nif_rmt_neopixel_show [TBinary [xff%byte]] all_ok_show one_led_world
    = Ret OK_ATOM w2 /\
    nif_rmt_neopixel_show [TBinary [xff%byte]] all_ok_show one_led_world
    <> Ret ERROR_ATOM one_led_world /\
    heap one_led_world !! 2%positive = Some (BPixels [x00; x00; x00]%byte) /\
    heap w2 !! 2%positive = Some (BPixels [xff; x00; x00]%byte) /\
    existsb is_driver_event (new_events one_led_world w2) = true.
Proof.
  eexists. split; [vm_compute; reflexivity|].
  split; [vm_compute; reflexivity|].
  split; [vm_compute; reflexivity|].
  split; [vm_compute; discriminate|].
  split; [vm_compute; reflexivity|].
  split; vm_compute; reflexivity.
Qed.

(** C5. From any reachable world, a call of [init] in which an allocation
    fails (for the record, the pixel buffer or the pulse buffer) returns,
    with [MEMORY_ERROR_ATOM]; every block the call allocated it also freed,
    the heap is left empty and [g_state] is [NULL], so that a following
    [show] returns [ERROR_ATOM]. *)
Theorem init_allocation_failure_leaves_no_session (w : world) :
  reachable w ->
  (forall (pin n : Z) (o : init_oracle),
      malloc_state_ok o = false \/
      (in_int_range (n * 3) = true /\ calloc_pixels_ok o = false) \/
      (in_int_range (n * 3 * 8) = true /\ calloc_items_ok o = false) ->
      exists w',
        nif_rmt_neopixel_init [TInteger pin; TInteger n] o w
        = Ret MEMORY_ERROR_ATOM w' /\
        existsb is_alloc_failure (new_events w w') = true) /\
  (forall (argv : list term) (o : init_oracle) (w' : world),
      world_of (nif_rmt_neopixel_init argv o w) = Some w' ->
      existsb is_alloc_failure (new_events w w') = true ->
      nif_rmt_neopixel_init argv o w = Ret MEMORY_ERROR_ATOM w' /\
      g_state w' = None /\
      heap w' = ∅ /\
      (forall q : ptr, q ∈ allocated_by (new_events w w') ->
                       q ∈ freed_by (new_events w w')) /\
      (forall data o', nif_rmt_neopixel_show [TBinary data] o' w'
                       = Ret ERROR_ATOM w')).
Proof.
  intros Hreach. split.
  - intros pin n o. apply init_refused_returns. apply reachable_inv. exact Hreach.
  - intros argv o w'. apply init_failure_cleanup. exact Hreach.
Qed.

(** [init(5, 2)] on top of a one-LED session, the allocator refusing the
    pulse buffer: the pixel buffer allocated just before is freed. *)
Lemma init_allocation_failure_leaves_no_session_witness :
  exists w' : world,
    nif_rmt_neopixel_init [TInteger 5; TInteger 2] no_items_init one_led_world
    = Ret MEMORY_ERROR_ATOM w' /\
    g_state w' = None /\
    heap w' = ∅ /\
    (forall q : ptr, q ∈ allocated_by (new_events one_led_world w') ->
                     q ∈ freed_by (new_events one_led_world w')) /\
    (forall data o', nif_rmt_neopixel_show [TBinary data] o' w'
                     = Ret ERROR_ATOM w').
Proof.
  destruct (init_allocation_failure_leaves_no_session one_led_world
              one_led_world_reachable) as [Hret Hclean].
  destruct (Hret 5 2 no_items_init) as (w' & Hrun & Hfail).
  { right; right. split; reflexivity. }
  exists w'. apply Hclean; [rewrite Hrun; reflexivity|exact Hfail].
Defined.

(** C6. In every world reachable by any sequence of calls, the heap
    holds the blocks of at most one session and nothing else, and the only
    session record in it is the one [g_state] points to. When [init] is
    called on a live session (and gets past its argument checks), the
    first thing it does after logging is to free that session's pixel
    buffer, pulse buffer and record, in this order; none of the three is
    live any more when the first allocation for the new session, which
    comes next, is made. *)
Theorem never_more_than_one_live_session :
  (forall w : world,
      reachable w ->
      world_inv w /\
      (forall (q : ptr) (s : neopixel_state_t),
          heap w !! q = Some (BState s) -> g_state w = Some q)) /\
  (forall (w : world) (p px it : ptr) (P N : Z) (buf : list byte)
          (pulses : list rmt_item32_t) (pin n : Z) (o : init_oracle) (w' : world),
      live_session w p px it P N buf pulses ->
      world_of (nif_rmt_neopixel_init [TInteger pin; TInteger n] o w) = Some w' ->
      exists (w0 : world) (r : option ptr) (rest : list event),
        free_previous (logged w n pin) = Ret tt w0 /\
        heap w0 = delete p (delete it (delete px (heap w))) /\
        (p ∉ dom (heap w0)) /\ (px ∉ dom (heap w0)) /\ (it ∉ dom (heap w0)) /\
        new_events w w'
        = EvLog n pin :: EvFree px :: EvFree it :: EvFree p
            :: EvAlloc sizeof_neopixel_state_t r :: rest).
Proof.
  split.
  - intros w Hreach. pose proof (reachable_inv w Hreach) as Hinv.
    split; [exact Hinv|]. intros q s Hq.
    unfold world_inv in Hinv. destruct (g_state w) as [p|].
    + destruct Hinv as (px & it & P & N & buf & pulses & Hlive & Hdom).
      destruct Hlive as [_ Hrec Hpx Hit _ _ _].
      assert (q ∈ dom (heap w)) as Hin by (apply elem_of_dom; eauto).
      rewrite Hdom in Hin.
      apply elem_of_union in Hin as [Hin|Hin];
        [apply elem_of_union in Hin as [Hin|Hin]|];
        apply elem_of_singleton in Hin; subst q; congruence.
    + rewrite Hinv in Hq. rewrite lookup_empty in Hq. discriminate.
  - intros w p px it P N buf pulses pin n o w' Hlive Hw.
    pose proof (free_previous_live _ _ _ _ _ _ _ _
                  (live_session_logged _ _ _ _ _ _ _ _ n pin Hlive)) as Hfree.
    cbn [logged heap trace] in Hfree. fold (logged w n pin) in Hfree.
    pose proof (init_outcomes pin n o w _ Hfree) as Hout. cbv zeta in Hout.
    cbn [heap trace] in Hout.
    eexists.
    assert (forall evs,
              trace w' = trace w ++ EvLog n pin :: EvFree px :: EvFree it
                                      :: EvFree p :: evs ->
              new_events w w'
              = EvLog n pin :: EvFree px :: EvFree it :: EvFree p :: evs) as Hev.
    { intros evs E. apply new_events_app. exact E. }
    destruct Hout as [H|[H|[(b & H)|[(b & _ & H)|(Hn & Hr & c & e & [H|[H|H]])]]]];
      rewrite H in Hw; try discriminate; injection Hw as Hw; symmetry in Hw;
      do 2 eexists; (split; [exact Hfree|]); cbn [heap];
      (split; [reflexivity|]);
      (split; [rewrite !dom_delete_L; set_solver|]);
      (split; [rewrite !dom_delete_L; set_solver|]);
      (split; [rewrite !dom_delete_L; set_solver|]);
      apply Hev; rewrite Hw; cbn [trace]; rewrite <- !app_assoc; reflexivity.
Qed.

(** [init(5, 2)] on top of a one-LED session. *)
Lemma never_more_than_one_live_session_witness :
  world_inv one_led_world /\
  exists (w0 : world) (r : option ptr) (rest : list event),
    free_previous (logged one_led_world 2 5) = Ret tt w0 /\
    (1%positive ∉ dom (heap w0)) /\
    (2%positive ∉ dom (heap w0)) /\
    (3%positive ∉ dom (heap w0)) /\
    new_events one_led_world two_led_world_again
    = EvLog 2 5 :: EvFree 2%positive :: EvFree 3%positive :: EvFree 1%positive
        :: EvAlloc sizeof_neopixel_state_t r :: rest.
Proof.
  destruct never_more_than_one_live_session as [Ha Hb].
  split; [exact (proj1 (Ha one_led_world one_led_world_reachable))|].
  destruct (Hb one_led_world _ _ _ _ _ _ _ 5 2 all_ok_init two_led_world_again
              one_led_world_live)
    as (w0 & r & rest & Hf & _ & H1 & H2 & H3 & Hev);
    [vm_compute; reflexivity|].
  exists w0, r, rest. repeat split; assumption.
Defined.

(** C7, amended. Every call [init(pin, n)] that returns [OK_ATOM] calls
    [rmt_config] exactly once, with output pin [pin], transmit mode, idle
    output enabled at idle level 0 (the line is held low when idle), no
    carrier and no looping. *)
Theorem init_programs_the_peripheral
    (pin n : Z) (o : init_oracle) (w w' : world) :
  nif_rmt_neopixel_init [TInteger pin; TInteger n] o w = Ret OK_ATOM w' ->
  exists cfg : rmt_config_t,
    rmt_configs_of (new_events w w') = [cfg] /\
    gpio_num cfg = pin /\
    rmt_mode cfg = RMT_MODE_TX /\
    idle_output_en (tx_config cfg) = true /\
    idle_level (tx_config cfg) = 0 /\
    carrier_en (tx_config cfg) = false /\
    loop_en (tx_config cfg) = false.
Proof.
  intros Hrun.
  destruct (init_defined pin n o w w') as [w0 Hfree]; [rewrite Hrun; reflexivity|].
  destruct (free_previous_shape _ _ Hfree) as (_ & fr & Htr & Hfr).
  pose proof (init_outcomes pin n o w w0 Hfree) as Hout. cbv zeta in Hout.
  rewrite Hrun in Hout.
  destruct Hout as [H|[H|[(b & H)|[(b & _ & H)|(Hn & Hr & c & e & [H|[H|H]])]]]];
    try discriminate.
  injection H as ->.
  exists (rmt_cfg_of pin). split; [|repeat split].
  erewrite new_events_app.
  2:{ cbn [trace]. rewrite Htr. cbn [logged trace].
      rewrite <- !app_assoc. reflexivity. }
  rewrite !rmt_configs_of_app, (rmt_configs_of_frees fr Hfr). reflexivity.
Qed.

(** [init(5, 1)] in the initial world. *)
Lemma init_programs_the_peripheral_witness :
  exists cfg : rmt_config_t,
    rmt_configs_of (new_events initial_world one_led_world) = [cfg] /\
    gpio_num cfg = 5 /\
    rmt_mode cfg = RMT_MODE_TX /\
    idle_output_en (tx_config cfg) = true /\
    idle_level (tx_config cfg) = 0 /\
    carrier_en (tx_config cfg) = false /\
    loop_en (tx_config cfg) = false.
Proof.
  apply (init_programs_the_peripheral 5 1 all_ok_init initial_world).
  vm_compute. reflexivity.
Defined.

(** C7 as stated ("idle output disabled") fails: the configuration that
    the successful [init(5, 1)] hands to [rmt_config] has [idle_output_en]
    set. *)
Lemma idle_output_is_not_disabled :
  exists (w' : world) (cfg : rmt_config_t),
    nif_rmt_neopixel_init [TInteger 5; TInteger 1] all_ok_init initial_world
    = Ret OK_ATOM w' /\
    rmt_configs_of (new_events initial_world w') = [cfg] /\
    idle_output_en (tx_config cfg) <> false.
Proof.
  exists one_led_world, (rmt_cfg_of 5).
  split; [vm_compute; reflexivity|]. split; [vm_compute; reflexivity|].
  discriminate.
Qed.

(** C8. After every call [init(P, N)] with [N > 0] that returns
    [OK_ATOM], [g_state] points to a record with pin [P] and LED count [N]
    whose pixel buffer has exactly [3 * N] bytes, all zero, and whose pulse
    buffer has exactly [24 * N] entries. *)
Theorem init_success_builds_zeroed_session
    (P N : Z) (o : init_oracle) (w w' : world) :
  nif_rmt_neopixel_init [TInteger P; TInteger N] o w = Ret OK_ATOM w' ->
  0 < N ->
  exists (p px it : ptr) (buf : list byte) (pulses : list rmt_item32_t),
    g_state w' = Some p /\
    heap w' !! p = Some (BState {| pin := P; num_leds := N;
                                   pixels := Some px; items := Some it |}) /\
    heap w' !! px = Some (BPixels buf) /\
    Z.of_nat (length buf) = 3 * N /\
    (forall (k : nat) (b : byte), buf !! k = Some b -> b = x00%byte) /\
    heap w' !! it = Some (BItems pulses) /\
    Z.of_nat (length pulses) = 24 * N.
Proof.
  intros Hrun HN.
  destruct (init_defined P N o w w') as [w0 Hfree]; [rewrite Hrun; reflexivity|].
  pose proof (init_outcomes P N o w w0 Hfree) as Hout. cbv zeta in Hout.
  rewrite Hrun in Hout.
  destruct Hout as [H|[H|[(b & H)|[(b & _ & H)|(Hn & Hr & c & e & [H|[H|H]])]]]];
    try discriminate.
  injection H as Hw'.
  destruct (init_ok_live P N (heap w0) w' Hn Hr)
    as [[Hg Hrec Hpx Hit Hlb Hlp _] _]; [rewrite Hw'; reflexivity ..|].
  do 5 eexists.
  split; [exact Hg|]. split; [exact Hrec|]. split; [exact Hpx|].
  split; [exact Hlb|]. split; [|split; [exact Hit|exact Hlp]].
  intros k b Hk. apply lookup_replicate in Hk as [-> _]. reflexivity.
Qed.

(** [init(5, 1)] in the initial world. *)
Lemma init_success_builds_zeroed_session_witness :
  exists (p px it : ptr) (buf : list byte) (pulses : list rmt_item32_t),
    g_state one_led_world = Some p /\
    heap one_led_world !! p = Some (BState {| pin := 5; num_leds := 1;
                                   pixels := Some px; items := Some it |}) /\
    heap one_led_world !! px = Some (BPixels buf) /\
    Z.of_nat (length buf) = 3 * 1 /\
    (forall (k : nat) (b : byte), buf !! k = Some b -> b = x00%byte) /\
    heap one_led_world !! it = Some (BItems pulses) /\
    Z.of_nat (length pulses) = 24 * 1.
Proof.
  apply (init_success_builds_zeroed_session 5 1 all_ok_init initial_world).
  - vm_compute. reflexivity.
  - lia.
Defined.

(** C9. With the timing constants as compiled (nanoseconds divided by the
    25 ns tick, truncating), the high plus low duration of a 0-bit equals
    that of a 1-bit, and every descriptor the encoder writes has that
    total. *)
Theorem bit_period_is_the_same_for_both_symbols
    (buf : list byte) (dst out : list rmt_item32_t) (k : nat) (it : rmt_item32_t) :
  (8 * length buf <= length dst)%nat ->
  neopixel_buf_to_rmt_items buf (Z.of_nat (length buf)) dst = Some out ->
  (k < 8 * length buf)%nat ->
  out !! k = Some it ->
  NS_TO_TICKS WS2812_T0H_NS + NS_TO_TICKS WS2812_T0L_NS
  = NS_TO_TICKS WS2812_T1H_NS + NS_TO_TICKS WS2812_T1L_NS /\
  duration0 it + duration1 it
  = NS_TO_TICKS WS2812_T0H_NS + NS_TO_TICKS WS2812_T0L_NS.
Proof.
  intros Hlen Hrun Hk Hit. split; [reflexivity|].
  rewrite neopixel_buf_to_rmt_items_prefix in Hrun by lia.
  injection Hrun as <-. rewrite firstn_all in Hit.
  rewrite lookup_app_l in Hit by (rewrite spec_encode_length; lia).
  rewrite spec_encode_lookup in Hit. destruct (decide _); [|lia].
  destruct (buf !! (k / 8)%nat) as [b|]; [|discriminate].
  change (Some (pulse_of_bit (msb_bit b (k mod 8))) = Some it) in Hit.
  injection Hit as <-.
  match goal with |- context [msb_bit ?x ?j] => destruct (msb_bit x j) end;
    reflexivity.
Qed.

(** The first descriptor of the byte [0x80]. *)
Lemma bit_period_is_the_same_for_both_symbols_witness :
  NS_TO_TICKS WS2812_T0H_NS + NS_TO_TICKS WS2812_T0L_NS
  = NS_TO_TICKS WS2812_T1H_NS + NS_TO_TICKS WS2812_T1L_NS /\
  duration0 (RmtItem 1 36 0 14) + duration1 (RmtItem 1 36 0 14)
  = NS_TO_TICKS WS2812_T0H_NS + NS_TO_TICKS WS2812_T0L_NS.
Proof.
  apply (bit_period_is_the_same_for_both_symbols
           [x80%byte] (replicate 8 zero_item)
           (RmtItem 1 36 0 14 :: replicate 7 (RmtItem 1 14 0 36)) 0%nat).
  - vm_compute. lia.
  - reflexivity.
  - vm_compute. lia.
  - reflexivity.
Defined.

(** C10. In both NIFs an argument error is reported before the session
    state is looked at: in every world, with or without a session, [show]
    with an argument count other than 1 returns [BADARITY] and [show] of a
    term that is not a binary returns [BADARG] (never [ERROR_ATOM]);
    [init] with an argument count other than 2 returns [BADARITY] and
    [init] of a non-integer returns [BADARG]. The world is returned as it
    was: no state is written, no event is added. *)
Theorem argument_errors_come_before_the_session_check (w : world) :
  (forall argv o, length argv <> 1%nat ->
                  nif_rmt_neopixel_show argv o w = Ret BADARITY w) /\
  (forall t o, term_is_binary t = false ->
               nif_rmt_neopixel_show [t] o w = Ret BADARG w) /\
  (forall argv o, length argv <> 2%nat ->
                  nif_rmt_neopixel_init argv o w = Ret BADARITY w) /\
  (forall a b o, term_is_integer a = false \/ term_is_integer b = false ->
                 nif_rmt_neopixel_init [a; b] o w = Ret BADARG w).
Proof.
  split; [|split; [|split]].
  - intros argv o. apply show_arity.
  - intros t o. apply show_badarg.
  - intros argv o. apply init_arity.
  - intros a b o. apply init_badarg.
Qed.

(** In the initial world, where no session exists. *)
Lemma argument_errors_come_before_the_session_check_witness :
  g_state initial_world = None /\
  nif_rmt_neopixel_show [] all_ok_show initial_world
  = Ret BADARITY initial_world /\
  nif_rmt_neopixel_show [TInteger 7] all_ok_show initial_world
  = Ret BADARG initial_world /\
  nif_rmt_neopixel_init [TInteger 5] all_ok_init initial_world
  = Ret BADARITY initial_world /\
  nif_rmt_neopixel_init [TInteger 5; TBinary []] all_ok_init initial_world
  = Ret BADARG initial_world.
Proof.
  destruct (argument_errors_come_before_the_session_check initial_world)
    as (H1 & H2 & H3 & H4).
  split; [reflexivity|]. split; [apply H1; cbn; lia|].
  split; [apply H2; reflexivity|].
  split; [apply H3; cbn; lia|].
  apply H4. right. reflexivity.
Defined.

(** * Further properties

    Properties of the same code beyond the numbered ones above. *)

(** ** Supporting facts *)

Section MoreFacts.

Lemma pulse_of_bit_inj (b1 b2 : bool) :
  pulse_of_bit b1 = pulse_of_bit b2 -> b1 = b2.
Proof. destruct b1, b2; try reflexivity; discriminate. Qed.

Lemma byte_of_msb_bits (b1 b2 : byte) :
  (forall j : nat, (j < 8)%nat -> msb_bit b1 j = msb_bit b2 j) -> b1 = b2.
Proof.
  intros H.
  assert (forall b, Byte.to_bits b =
                    (msb_bit b 7, (msb_bit b 6, (msb_bit b 5, (msb_bit b 4,
                    (msb_bit b 3, (msb_bit b 2, (msb_bit b 1, msb_bit b 0))))))))
    as Hbits by (intros b; destruct b; reflexivity).
  rewrite <- (Byte.of_bits_to_bits b1), <- (Byte.of_bits_to_bits b2).
  rewrite !Hbits.
  rewrite !(H _) by lia. reflexivity.
Qed.

Lemma spec_encode_byte_inj (b1 b2 : byte) :
  spec_encode_byte b1 = spec_encode_byte b2 -> b1 = b2.
Proof.
  intros H. apply byte_of_msb_bits. intros j Hj.
  apply pulse_of_bit_inj.
  assert (spec_encode_byte b1 !! j = spec_encode_byte b2 !! j) as E by (rewrite H; reflexivity).
  do 8 (destruct j as [|j]; [cbn in E; congruence|]). lia.
Qed.

Lemma spec_encode_inj (l1 : list byte) : forall l2 : list byte,
  spec_encode l1 = spec_encode l2 -> l1 = l2.
Proof.
  induction l1 as [|b1 l1 IH]; intros [|b2 l2] H; try reflexivity;
    try (apply (f_equal length) in H; rewrite !spec_encode_length in H;
         cbn in H; lia).
  cbn [spec_encode flat_map] in H. fold (spec_encode l1) (spec_encode l2) in H.
  apply app_inj_1 in H as [Hb Hl]; [|reflexivity].
  f_equal; [apply spec_encode_byte_inj; exact Hb|apply IH; exact Hl].
Qed.

Lemma store_item_some (l : list rmt_item32_t) (idx : Z) (it : rmt_item32_t)
    (out : list rmt_item32_t) :
  store_item l idx it = Some out ->
  0 <= idx < Z.of_nat (length l) /\ length out = length l.
Proof.
  unfold store_item.
  destruct (Z.leb_spec 0 idx); cbn [andb]; [|discriminate].
  destruct (Z.ltb_spec idx (Z.of_nat (length l))); [|discriminate].
  intros [= <-]. split; [lia|apply length_insert].
Qed.

Lemma encode_bit_some (byte i j : Z) (l out : list rmt_item32_t) :
  encode_bit byte i j l = Some out ->
  0 <= i * 8 + j < Z.of_nat (length l) /\ length out = length l.
Proof.
  unfold encode_bit. destruct (negb _); apply store_item_some.
Qed.

Lemma bits_loop_some (n : nat) : forall (byte i j : Z) (l out : list rmt_item32_t),
  bits_loop n byte i j l = Some out ->
  length out = length l /\
  ((0 < n)%nat -> i * 8 + j + Z.of_nat n <= Z.of_nat (length l)).
Proof.
  induction n as [|n IH]; intros byte i j l out H.
  - cbn in H. injection H as <-. split; [reflexivity|lia].
  - cbn [bits_loop] in H.
    destruct (encode_bit byte i j l) as [l1|] eqn:E; [|discriminate].
    apply encode_bit_some in E as [Hidx Hl1].
    apply IH in H as [Hlen Hb]. split; [congruence|].
    intros _. destruct n as [|n]; [lia|].
    rewrite Hl1 in Hb. specialize (Hb ltac:(lia)). lia.
Qed.

Lemma bytes_loop_some (n : nat) : forall (buf : list byte) (i : Z)
    (l out : list rmt_item32_t),
  0 <= i ->
  bytes_loop n buf i l = Some out ->
  length out = length l /\
  ((0 < n)%nat ->
   i + Z.of_nat n <= Z.of_nat (length buf) /\
   8 * (i + Z.of_nat n) <= Z.of_nat (length l)).
Proof.
  induction n as [|n IH]; intros buf i l out Hi H.
  - cbn in H. injection H as <-. split; [reflexivity|lia].
  - cbn [bytes_loop] in H. rewrite load_byte_in in H by lia.
    destruct (buf !! Z.to_nat i) as [b|] eqn:Hb; [|discriminate].
    apply lookup_lt_Some in Hb.
    destruct (bits_loop 8 (uint8 b) i 0 l) as [l1|] eqn:E; [|discriminate].
    apply bits_loop_some in E as [Hl1 Hb1]. specialize (Hb1 ltac:(lia)).
    apply IH in H as [Hlen Hbn]; [|lia]. split; [congruence|].
    intros _. destruct n as [|n]; [lia|].
    rewrite Hl1 in Hbn. specialize (Hbn ltac:(lia)). lia.
Qed.

(** Where a [show] on a live session ends, whatever the driver answers. *)
Lemma show_live_world (w : world) p px it P N buf pulses data o w' :
  live_session w p px it P N buf pulses ->
  world_of (nif_rmt_neopixel_show [TBinary data] o w) = Some w' ->
  let c := Nat.min (length data) (length buf) in
  let sent := spec_encode (take c data) in
  let e1 := EvRmtWriteItems RMT_CHANNEL sent (Z.of_nat c * 8) false
              (rmt_write_items_res o) in
  let e2 := EvRmtWaitTxDone RMT_CHANNEL 100 (rmt_wait_tx_done_res o) in
  g_state w' = g_state w /\
  heap w' = <[it := BItems (sent ++ drop (8 * c) pulses)]>
              (<[px := BPixels (take c data ++ drop c buf)]> (heap w)) /\
  ((exists e, rmt_write_items_res o = ESP_ERR e /\
              new_events w w' = [e1; EvAbort]) \/
   (exists e, rmt_write_items_res o = ESP_OK /\
              rmt_wait_tx_done_res o = ESP_ERR e /\
              new_events w w' = [e1; e2; EvAbort]) \/
   (rmt_write_items_res o = ESP_OK /\ rmt_wait_tx_done_res o = ESP_OK /\
    nif_rmt_neopixel_show [TBinary data] o w = Ret OK_ATOM w' /\
    new_events w w' = [e1; e2])).
Proof.
  intros Hlive Hw c sent e1 e2.
  pose proof (show_live _ _ _ _ _ _ _ _ data o Hlive) as E. cbv zeta in E.
  fold c sent in E. rewrite E in Hw. clear Hlive.
  subst e1 e2.
  destruct (rmt_write_items_res o) as [|e] eqn:O1.
  - destruct (rmt_wait_tx_done_res o) as [|e] eqn:O2;
      injection Hw as <-; (split; [reflexivity|]); (split; [reflexivity|]).
    + right; right. repeat split; try reflexivity.
      * exact E.
      * apply new_events_app. reflexivity.
    + right; left. exists e. repeat split. apply new_events_app. reflexivity.
  - injection Hw as <-. split; [reflexivity|]. split; [reflexivity|].
    left. exists e. split; [reflexivity|]. apply new_events_app. reflexivity.
Qed.

Lemma zero_led_world_live :
  live_session zero_led_world 1%positive 2%positive 3%positive 5 0 [] [].
Proof. split; vm_compute; first [reflexivity | discriminate]. Qed.

(** [init] when the allocator serves all three requests: the outcome is
    decided by the two driver calls. *)
Lemma init_when_served (w : world) (pin n : Z) (o : init_oracle) :
  world_inv w ->
  malloc_state_ok o = true -> calloc_pixels_ok o = true ->
  calloc_items_ok o = true ->
  0 <= n -> 96 * n <= PTRDIFF_MAX ->
  exists (w0 : world) (fr : list event),
    free_previous (logged w n pin) = Ret tt w0 /\
    heap w0 = ∅ /\
    trace w0 = trace w ++ EvLog n pin :: fr /\
    Forall (fun e => is_free e = true) fr /\
    let p := fresh (dom (heap w0)) in
    let px := fresh ({[p]} ∪ dom (heap w0)) in
    let it := fresh ({[px]} ∪ ({[p]} ∪ dom (heap w0))) in
    let rec_ := BState {| pin := pin; num_leds := n;
                          pixels := Some px; items := Some it |} in
    let h3 := <[it := zeroed_items (Z.to_nat (24 * n))]>
                (<[px := zeroed_pixels (Z.to_nat (3 * n))]>
                   (<[p := rec_]> (heap w0))) in
    let t3 := trace w0 ++
              [EvAlloc sizeof_neopixel_state_t (Some p);
               EvAlloc (3 * n) (Some px); EvAlloc (96 * n) (Some it);
               EvRmtConfig (rmt_cfg_of pin) (rmt_config_res o)] in
    let e5 := EvRmtDriverInstall RMT_CHANNEL 0 0 (rmt_driver_install_res o) in
    nif_rmt_neopixel_init [TInteger pin; TInteger n] o w =
    match rmt_config_res o with
    | ESP_ERR _ => Aborted (World (Some p) h3 (t3 ++ [EvAbort]))
    | ESP_OK =>
        match rmt_driver_install_res o with
        | ESP_ERR _ => Aborted (World (Some p) h3 (t3 ++ [e5; EvAbort]))
        | ESP_OK => Ret OK_ATOM (World (Some p) h3 (t3 ++ [e5]))
        end
    end.
Proof.
  intros Hinv O1 O2 O3 Hn Hsz.
  destruct (free_previous_inv w n pin Hinv) as (w0 & fr & Hfree & Hh0 & Htr & Hfr).
  exists w0, fr. split; [exact Hfree|]. split; [exact Hh0|].
  split; [exact Htr|]. split.
  { destruct Hfr as [[_ ->]|(p & px & it & P & N & buf & pulses & _ & ->)];
      repeat constructor. }
  pose proof (init_from pin n o w w0 Hfree) as E. cbv zeta in E |- *.
  unfold PTRDIFF_MAX in Hsz.
  rewrite O1, O2, O3 in E. cbn [negb andb] in E.
  rewrite (in_int_range_true (n * 3)) in E
    by (unfold INT_MIN, INT_MAX; lia).
  rewrite (in_int_range_true (n * 3 * 8)) in E
    by (unfold INT_MIN, INT_MAX; lia).
  rewrite (to_size_t_small (n * 3)) in E by (unfold SIZE_MODULUS; lia).
  rewrite (to_size_t_small (n * 3 * 8)) in E by (unfold SIZE_MODULUS; lia).
  replace (n * 3 * sizeof_uint8_t <=? PTRDIFF_MAX) with true in E
    by (symmetry; apply Z.leb_le; unfold sizeof_uint8_t, PTRDIFF_MAX; lia).
  replace (n * 3 * 8 * sizeof_rmt_item32_t <=? PTRDIFF_MAX) with true in E
    by (symmetry; apply Z.leb_le; unfold sizeof_rmt_item32_t, PTRDIFF_MAX; lia).
  cbn [negb] in E.
  replace (n * 3 * sizeof_uint8_t) with (3 * n) in E
    by (unfold sizeof_uint8_t; lia).
  replace (n * 3 * 8 * sizeof_rmt_item32_t) with (96 * n) in E
    by (unfold sizeof_rmt_item32_t; lia).
  replace (n * 3 * 8) with (24 * n) in E by lia.
  replace (n * 3) with (3 * n) in E by lia.
  exact E.
Qed.

Lemma live_session_functional w p px it P N buf pulses p' px' it' P' N' buf' pulses' :
  live_session w p px it P N buf pulses ->
  live_session w p' px' it' P' N' buf' pulses' ->
  buf' = buf /\ pulses' = pulses.
Proof.
  intros [Hg Hrec Hpx Hit _ _ _] [Hg' Hrec' Hpx' Hit' _ _ _].
  assert (p' = p) as -> by congruence.
  rewrite Hrec in Hrec'. injection Hrec' as -> -> -> ->.
  rewrite Hpx in Hpx'. rewrite Hit in Hit'.
  injection Hpx' as ->. injection Hit' as ->. split; reflexivity.
Qed.

Lemma coherent_zeroed (buf : list byte) (n : nat) :
  coherent buf (replicate n zero_item).
Proof.
  intros k it Hk. apply lookup_replicate in Hk as [-> _]. left. reflexivity.
Qed.

Lemma coherent_after_show (buf : list byte) (pulses : list rmt_item32_t)
    (data : list byte) (c : nat) :
  (c <= length data)%nat -> (c <= length buf)%nat ->
  coherent buf pulses ->
  coherent (take c data ++ drop c buf)
           (spec_encode (take c data) ++ drop (8 * c) pulses).
Proof.
  intros Hcd Hcb Hco k it Hk.
  assert (length (take c data) = c) as Htl by (rewrite length_take; lia).
  assert (length (spec_encode (take c data)) = (8 * c)%nat) as Hsl
    by (rewrite spec_encode_length, Htl; reflexivity).
  assert (length (take c data ++ drop c buf) = length buf) as Hl'
    by (rewrite length_app, Htl, length_drop; lia).
  destruct (decide (k < 8 * c)%nat) as [Hlt|Hge].
  - right. rewrite lookup_app_l in Hk by lia. rewrite <- Hk.
    rewrite !spec_encode_lookup, Htl, Hl'.
    destruct (decide (k < 8 * c)%nat); [|lia].
    destruct (decide (k < 8 * length buf)%nat); [|lia].
    rewrite lookup_app_l; [reflexivity|].
    rewrite Htl. apply Nat.Div0.div_lt_upper_bound. lia.
  - rewrite lookup_app_r in Hk by lia. rewrite Hsl, lookup_drop in Hk.
    replace (8 * c + (k - 8 * c))%nat with k in Hk by lia.
    destruct (Hco k it Hk) as [Hz|He]; [left; exact Hz|right].
    rewrite spec_encode_lookup in He |- *. rewrite Hl'.
    destruct (decide (k < 8 * length buf)%nat); [|discriminate].
    assert (c <= k / 8)%nat as Hq by (apply Nat.div_le_lower_bound; lia).
    rewrite lookup_app_r by (rewrite Htl; exact Hq).
    rewrite Htl, lookup_drop.
    replace (c + (k / 8 - c))%nat with (k / 8)%nat by lia. exact He.
Qed.

Lemma one_led_shown_world_reachable : reachable one_led_shown_world.
Proof.
  apply (reachable_step one_led_world
           (CallShow [TBinary [x12; x34; x56]%byte] all_ok_show) OK_ATOM).
  - exact one_led_world_reachable.
  - vm_compute. reflexivity.
Qed.

Lemma init_returns (argv : list term) (o : init_oracle) (w w' : world) (r : term) :
  nif_rmt_neopixel_init argv o w = Ret r w' ->
  (r = BADARITY /\ length argv <> 2%nat /\ w' = w) \/
  (r = BADARG /\ length argv = 2%nat /\ w' = w) \/
  (r = MEMORY_ERROR_ATOM /\ length argv = 2%nat /\ g_state w' = None) \/
  (r = OK_ATOM /\ length argv = 2%nat /\ g_state w' <> None).
Proof.
  intros Hrun.
  destruct (init_argv_cases argv) as [Hlen|[(a & b & -> & Hty)|(pin & n & ->)]].
  - rewrite init_arity in Hrun by exact Hlen. injection Hrun as <- <-.
    left. repeat split. exact Hlen.
  - rewrite init_badarg in Hrun by exact Hty. injection Hrun as <- <-.
    right; left. repeat split.
  - destruct (init_defined pin n o w w') as [w0 Hfree]; [rewrite Hrun; reflexivity|].
    pose proof (init_outcomes pin n o w w0 Hfree) as Hout. cbv zeta in Hout.
    rewrite Hrun in Hout.
    destruct Hout as [H|[H|[(b & H)|[(b & _ & H)|(Hn & Hr & c & e & [H|[H|H]])]]]];
      try discriminate; injection H as -> ->;
      [right; right; left; repeat split ..|].
    right; right; right. repeat split. discriminate.
Qed.

Lemma show_returns (argv : list term) (o : show_oracle) (w w' : world) (r : term) :
  world_inv w ->
  nif_rmt_neopixel_show argv o w = Ret r w' ->
  (r = BADARITY /\ length argv <> 1%nat /\ w' = w) \/
  (r = BADARG /\ length argv = 1%nat /\ w' = w) \/
  (r = ERROR_ATOM /\ length argv = 1%nat /\ g_state w = None /\ w' = w) \/
  (r = OK_ATOM /\ length argv = 1%nat /\ g_state w <> None).
Proof.
  intros Hinv Hrun.
  destruct (show_argv_cases argv) as [Hlen|[(a & -> & Hty)|(data & ->)]].
  - rewrite show_arity in Hrun by exact Hlen. injection Hrun as <- <-.
    left. repeat split. exact Hlen.
  - rewrite show_badarg in Hrun by exact Hty. injection Hrun as <- <-.
    right; left. repeat split.
  - unfold world_inv in Hinv. destruct (g_state w) as [p|] eqn:Hg.
    + destruct Hinv as (px & it & P & N & buf & pulses & Hlive & _).
      rewrite (show_live _ _ _ _ _ _ _ _ data o Hlive) in Hrun. cbv zeta in Hrun.
      destruct (rmt_write_items_res o); [|discriminate].
      destruct (rmt_wait_tx_done_res o); [|discriminate].
      injection Hrun as <- _. right; right; right. repeat split. discriminate.
    + rewrite show_no_session in Hrun by exact Hg. injection Hrun as <- <-.
      right; right; left. repeat split.
Qed.

End MoreFacts.

(** ** The properties *)

(** X1. The encoding loses nothing: when [neopixel_buf_to_rmt_items] has
    encoded the first [n] bytes of two buffers and the two results agree on
    their first [8 * n] descriptors, the two buffers agree on their first
    [n] bytes. (T0H and T1H differ once converted to ticks, so a strip can
    tell the two symbols apart.) *)
Theorem encoder_is_injective
    (buf1 buf2 : list byte) (n : nat) (dst1 dst2 out1 out2 : list rmt_item32_t) :
  (n <= length buf1)%nat -> (n <= length buf2)%nat ->
  (8 * n <= length dst1)%nat -> (8 * n <= length dst2)%nat ->
  neopixel_buf_to_rmt_items buf1 (Z.of_nat n) dst1 = Some out1 ->
  neopixel_buf_to_rmt_items buf2 (Z.of_nat n) dst2 = Some out2 ->
  take (8 * n) out1 = take (8 * n) out2 ->
  take n buf1 = take n buf2.
Proof.
  intros Hb1 Hb2 Hd1 Hd2 H1 H2 Heq.
  rewrite neopixel_buf_to_rmt_items_prefix in H1, H2 by lia.
  injection H1 as <-. injection H2 as <-.
  rewrite !take_app_length' in Heq
    by (rewrite spec_encode_length, length_take; lia).
  apply spec_encode_inj. exact Heq.
Qed.

(** Two buffers that start with [0x80], one byte encoded. *)
Lemma encoder_is_injective_witness :
  take 1 [x80; x01]%byte = take 1 [x80; xff]%byte.
Proof.
  apply (encoder_is_injective [x80; x01]%byte [x80; xff]%byte 1
           (replicate 8 zero_item) (replicate 9 zero_item)
           (RmtItem 1 36 0 14 :: replicate 7 (RmtItem 1 14 0 36))
           (RmtItem 1 36 0 14 :: replicate 7 (RmtItem 1 14 0 36) ++ [zero_item]));
    try (vm_compute; lia); reflexivity.
Defined.

(** X2. The two loops of [neopixel_buf_to_rmt_items] stay inside both
    arrays exactly when the source holds at least [len] bytes and the
    destination at least [8 * len] items; for [len <= 0] no iteration runs
    and the destination is returned as it was, whatever its size. There is
    no check in the function: outside these bounds it loads or stores out
    of range. *)
Theorem encoder_stays_in_bounds_exactly_when_sized
    (buf : list byte) (len : Z) (dst : list rmt_item32_t) :
  (len <= 0 /\ neopixel_buf_to_rmt_items buf len dst = Some dst) \/
  (0 < len /\
   (is_Some (neopixel_buf_to_rmt_items buf len dst) <->
    len <= Z.of_nat (length buf) /\ 8 * len <= Z.of_nat (length dst))).
Proof.
  destruct (Z_le_gt_dec len 0) as [Hle|Hgt].
  - left. split; [exact Hle|]. unfold neopixel_buf_to_rmt_items.
    replace (Z.to_nat len) with 0%nat by lia. reflexivity.
  - right. split; [lia|]. split.
    + intros [out H]. unfold neopixel_buf_to_rmt_items in H.
      apply bytes_loop_some in H as [_ Hb]; [|lia].
      specialize (Hb ltac:(lia)). lia.
    + intros [Hb Hd]. replace len with (Z.of_nat (Z.to_nat len)) by lia.
      rewrite neopixel_buf_to_rmt_items_prefix by lia. eauto.
Qed.

(** One byte into 8 items is in bounds; into 7 items, or two bytes read
    from a one-byte source, is not. *)
Lemma encoder_stays_in_bounds_exactly_when_sized_witness :
  is_Some (neopixel_buf_to_rmt_items [x80%byte] 1 (replicate 8 zero_item)) /\
  ~ is_Some (neopixel_buf_to_rmt_items [x80%byte] 1 (replicate 7 zero_item)) /\
  ~ is_Some (neopixel_buf_to_rmt_items [x80%byte] 2 (replicate 16 zero_item)).
Proof.
  split; [|split].
  - destruct (encoder_stays_in_bounds_exactly_when_sized
                [x80%byte] 1 (replicate 8 zero_item)) as [[H _]|[_ H]]; [lia|].
    apply H. vm_compute. split; discriminate.
  - destruct (encoder_stays_in_bounds_exactly_when_sized
                [x80%byte] 1 (replicate 7 zero_item)) as [[H _]|[_ H]]; [lia|].
    intros Hs. apply H in Hs as [_ Hs]. vm_compute in Hs. apply Hs. reflexivity.
  - destruct (encoder_stays_in_bounds_exactly_when_sized
                [x80%byte] 2 (replicate 16 zero_item)) as [[H _]|[_ H]]; [lia|].
    intros Hs. apply H in Hs as [Hs _]. vm_compute in Hs. apply Hs. reflexivity.
Defined.

(** X3. On a live session for [N] LEDs, [show] calls [rmt_write_items]
    exactly once, whatever the driver answers, with the encoding of the
    [c = min (length data) (3 * N)] bytes it copied and the item count
    [8 * c]; these are the first [8 * c] entries of the pulse buffer. A
    frame shorter than the strip is therefore sent alone: the carried-over
    tail of the buffers is kept but not transmitted. *)
Theorem show_submits_exactly_the_copied_bytes
    (w : world) (p px it : ptr) (P N : Z) (buf : list byte)
    (pulses : list rmt_item32_t) (data : list byte) (o : show_oracle)
    (w' : world) :
  live_session w p px it P N buf pulses ->
  world_of (nif_rmt_neopixel_show [TBinary data] o w) = Some w' ->
  let c := Nat.min (length data) (Z.to_nat (3 * N)) in
  submitted_by (new_events w w')
  = [(spec_encode (take c data), 8 * Z.of_nat c)] /\
  exists pulses',
    heap w' !! it = Some (BItems pulses') /\
    take (8 * c) pulses' = spec_encode (take c data).
Proof.
  intros Hlive Hw c.
  pose proof (live_pixels_len _ _ _ _ _ _ _ _ Hlive) as Hlb.
  destruct (show_live_world _ _ _ _ _ _ _ _ data o w' Hlive Hw)
    as (_ & Hh & Hev).
  cbv zeta in Hh, Hev.
  replace (Nat.min (length data) (length buf)) with c in Hh, Hev by lia.
  replace (Z.of_nat c * 8) with (8 * Z.of_nat c) in Hev by lia.
  split.
  - destruct Hev as [(e & _ & ->)|[(e & _ & _ & ->)|(_ & _ & _ & ->)]];
      reflexivity.
  - eexists. split; [rewrite Hh; apply lookup_insert_eq|].
    apply take_app_length'. rewrite spec_encode_length, length_take. lia.
Qed.

(** Two bytes shown on a strip of two LEDs: 16 descriptors go out. *)
Lemma show_submits_exactly_the_copied_bytes_witness :
  submitted_by (new_events two_led_world
                  (world_after (nif_rmt_neopixel_show [TBinary [x01; x02]%byte]
                                  all_ok_show two_led_world)))
  = [(spec_encode [x01; x02]%byte, 16)].
Proof.
  apply (show_submits_exactly_the_copied_bytes two_led_world _ _ _ _ _ _ _
           [x01; x02]%byte all_ok_show _ two_led_world_live).
  vm_compute. reflexivity.
Defined.

(** X4. Two [show]s in a row: afterwards each pixel-buffer position holds
    the byte of the second frame where the second frame reached, else the
    byte of the first frame where the first frame reached, else what it
    held before; likewise each pulse-buffer entry, for the encodings. *)
Theorem show_then_show_last_writer_wins
    (w : world) (p px it : ptr) (P N : Z) (buf : list byte)
    (pulses : list rmt_item32_t) (d1 d2 : list byte) (o1 o2 : show_oracle)
    (r1 : term) (w1 w2 : world) :
  live_session w p px it P N buf pulses ->
  nif_rmt_neopixel_show [TBinary d1] o1 w = Ret r1 w1 ->
  world_of (nif_rmt_neopixel_show [TBinary d2] o2 w1) = Some w2 ->
  let c1 := Nat.min (length d1) (Z.to_nat (3 * N)) in
  let c2 := Nat.min (length d2) (Z.to_nat (3 * N)) in
  exists buf2 pulses2,
    live_session w2 p px it P N buf2 pulses2 /\
    (forall k : nat,
        buf2 !! k = if decide (k < c2)%nat then d2 !! k
                    else if decide (k < c1)%nat then d1 !! k
                    else buf !! k) /\
    (forall k : nat,
        pulses2 !! k = if decide (k < 8 * c2)%nat then spec_encode d2 !! k
                       else if decide (k < 8 * c1)%nat then spec_encode d1 !! k
                       else pulses !! k).
Proof.
  intros Hlive H1 H2 c1 c2.
  pose proof (live_pixels_len _ _ _ _ _ _ _ _ Hlive) as Hlb.
  assert (world_of (nif_rmt_neopixel_show [TBinary d1] o1 w) = Some w1) as Hw1
    by (rewrite H1; reflexivity).
  destruct (show_live_preserved _ _ _ _ _ _ _ _ d1 o1 w1 Hlive Hw1)
    as (Hlive1 & _ & _). cbv zeta in Hlive1.
  replace (Nat.min (length d1) (length buf)) with c1 in Hlive1 by lia.
  destruct (show_live_preserved _ _ _ _ _ _ _ _ d2 o2 w2 Hlive1 H2)
    as (Hlive2 & _ & _). cbv zeta in Hlive2.
  assert (length (take c1 d1 ++ drop c1 buf) = length buf) as Hl1.
  { rewrite length_app, length_take, length_drop. lia. }
  rewrite Hl1 in Hlive2.
  replace (Nat.min (length d2) (length buf)) with c2 in Hlive2 by lia.
  do 2 eexists. split; [exact Hlive2|]. split.
  - assert (forall (c : nat) (d : list byte),
               (c <= length d)%nat -> length (take c d) = c) as Htl.
    { intros c d Hc. rewrite length_take. lia. }
    intros k. destruct (decide (k < c2)%nat) as [Hk2|Hk2].
    + rewrite lookup_app_l by (rewrite Htl; lia).
      apply lookup_take_lt. exact Hk2.
    + rewrite lookup_app_r by (rewrite Htl; lia).
      rewrite Htl, lookup_drop by lia.
      replace (c2 + (k - c2))%nat with k by lia.
      destruct (decide (k < c1)%nat) as [Hk1|Hk1].
      * rewrite lookup_app_l by (rewrite Htl; lia).
        apply lookup_take_lt. exact Hk1.
      * rewrite lookup_app_r by (rewrite Htl; lia).
        rewrite Htl, lookup_drop by lia. f_equal. lia.
  - assert (forall (c : nat) (d : list byte) (k : nat),
               (c <= length d)%nat -> (k < 8 * c)%nat ->
               spec_encode (take c d) !! k = spec_encode d !! k) as Hpre.
    { intros c d k Hc Hk. rewrite !spec_encode_lookup, length_take.
      destruct (decide _); [|lia]. destruct (decide _); [|lia].
      rewrite lookup_take_lt; [reflexivity|].
      apply Nat.Div0.div_lt_upper_bound. lia. }
    assert (forall (c : nat) (d : list byte),
               (c <= length d)%nat -> length (spec_encode (take c d)) = (8 * c)%nat)
      as Hlen.
    { intros c d Hc. rewrite spec_encode_length, length_take. lia. }
    intros k. destruct (decide (k < 8 * c2)%nat) as [Hk2|Hk2].
    + rewrite lookup_app_l by (rewrite Hlen; lia). apply Hpre; lia.
    + rewrite lookup_app_r by (rewrite Hlen; lia).
      rewrite Hlen, lookup_drop by lia.
      replace (8 * c2 + (k - 8 * c2))%nat with k by lia.
      destruct (decide (k < 8 * c1)%nat) as [Hk1|Hk1].
      * rewrite lookup_app_l by (rewrite Hlen; lia). apply Hpre; lia.
      * rewrite lookup_app_r by (rewrite Hlen; lia).
        rewrite Hlen, lookup_drop by lia. f_equal. lia.
Qed.

(** A full frame of six bytes, then a frame of one byte, on two LEDs. *)
Lemma show_then_show_last_writer_wins_witness :
  exists buf2 pulses2,
    live_session
      (world_after (nif_rmt_neopixel_show [TBinary [xaa%byte]] all_ok_show
                      two_led_shown_world))
      1%positive 2%positive 3%positive 5 2 buf2 pulses2 /\
    buf2 !! 0%nat = Some xaa%byte /\
    buf2 !! 1%nat = Some x02%byte /\
    buf2 !! 5%nat = Some x06%byte.
Proof.
  destruct (show_then_show_last_writer_wins two_led_world _ _ _ _ _ _ _
              [x01; x02; x03; x04; x05; x06]%byte [xaa%byte]
              all_ok_show all_ok_show OK_ATOM two_led_shown_world
              (world_after (nif_rmt_neopixel_show [TBinary [xaa%byte]]
                              all_ok_show two_led_shown_world))
              two_led_world_live)
    as (buf2 & pulses2 & Hl & Hb & _);
    [vm_compute; reflexivity|vm_compute; reflexivity|].
  exists buf2, pulses2. split; [exact Hl|].
  split; [rewrite (Hb 0%nat); reflexivity|].
  split; [rewrite (Hb 1%nat); reflexivity|rewrite (Hb 5%nat); reflexivity].
Defined.

(** X5. Showing the same data again changes no byte of the heap and hands
    the driver the same descriptors again. *)
Theorem show_twice_changes_nothing_more
    (w : world) (p px it : ptr) (P N : Z) (buf : list byte)
    (pulses : list rmt_item32_t) (data : list byte) (o1 o2 : show_oracle)
    (r1 : term) (w1 w2 : world) :
  live_session w p px it P N buf pulses ->
  nif_rmt_neopixel_show [TBinary data] o1 w = Ret r1 w1 ->
  world_of (nif_rmt_neopixel_show [TBinary data] o2 w1) = Some w2 ->
  heap w2 = heap w1 /\ g_state w2 = g_state w1 /\
  submitted_by (new_events w1 w2) = submitted_by (new_events w w1).
Proof.
  intros Hlive H1 H2.
  assert (world_of (nif_rmt_neopixel_show [TBinary data] o1 w) = Some w1) as Hw1
    by (rewrite H1; reflexivity).
  destruct (show_live_preserved _ _ _ _ _ _ _ _ data o1 w1 Hlive Hw1)
    as (Hlive1 & _ & _). cbv zeta in Hlive1.
  destruct (show_live_world _ _ _ _ _ _ _ _ data o1 w1 Hlive Hw1)
    as (_ & _ & Hev1).
  destruct (show_live_world _ _ _ _ _ _ _ _ data o2 w2 Hlive1 H2)
    as (Hg2 & Hh2 & Hev2).
  cbv zeta in Hh2, Hev1, Hev2.
  set (c := Nat.min (length data) (length buf)) in *.
  assert (length (take c data) = c) as Htl by (rewrite length_take; lia).
  assert (length (take c data ++ drop c buf) = length buf) as Hl1.
  { rewrite length_app, Htl, length_drop. lia. }
  rewrite Hl1 in Hh2, Hev2. fold c in Hh2, Hev2.
  assert (drop c (take c data ++ drop c buf) = drop c buf) as Hd1.
  { rewrite drop_app_length'; [reflexivity|symmetry; exact Htl]. }
  assert (drop (8 * c) (spec_encode (take c data) ++ drop (8 * c) pulses)
          = drop (8 * c) pulses) as Hd2.
  { rewrite drop_app_length'; [reflexivity|].
    rewrite spec_encode_length, Htl. reflexivity. }
  rewrite Hd1, Hd2 in Hh2.
  split; [|split; [exact Hg2|]].
  - rewrite Hh2.
    rewrite (insert_id (heap w1) px) by exact (live_pixels _ _ _ _ _ _ _ _ Hlive1).
    apply insert_id. exact (live_items _ _ _ _ _ _ _ _ Hlive1).
  - destruct Hev1 as [(e & _ & ->)|[(e & _ & _ & ->)|(_ & _ & _ & ->)]];
      destruct Hev2 as [(e' & _ & ->)|[(e' & _ & _ & ->)|(_ & _ & _ & ->)]];
      reflexivity.
Qed.

(** The frame [0x12 0x34 0x56] shown twice on one LED. *)
Lemma show_twice_changes_nothing_more_witness :
  heap (world_after (nif_rmt_neopixel_show [TBinary [x12; x34; x56]%byte]
                       all_ok_show one_led_shown_world))
  = heap one_led_shown_world.
Proof.
  apply (show_twice_changes_nothing_more one_led_world _ _ _ _ _ _ _
           [x12; x34; x56]%byte all_ok_show all_ok_show OK_ATOM
           one_led_shown_world _ one_led_world_live);
    vm_compute; reflexivity.
Defined.

(** X6. On a live session, when [rmt_write_items] or [rmt_wait_tx_done]
    reports an error, [show] does not return: the process aborts under
    [ESP_ERROR_CHECK]. A failed [rmt_write_items] is not followed by
    [rmt_wait_tx_done]. By then both buffers already hold the new frame. *)
Theorem show_aborts_when_the_driver_fails
    (w : world) (p px it : ptr) (P N : Z) (buf : list byte)
    (pulses : list rmt_item32_t) (data : list byte) (o : show_oracle) :
  live_session w p px it P N buf pulses ->
  rmt_write_items_res o <> ESP_OK \/ rmt_wait_tx_done_res o <> ESP_OK ->
  let c := Nat.min (length data) (Z.to_nat (3 * N)) in
  exists w',
    nif_rmt_neopixel_show [TBinary data] o w = Aborted w' /\
    last (new_events w w') = Some EvAbort /\
    (rmt_write_items_res o <> ESP_OK ->
     existsb (fun e => match e with EvRmtWaitTxDone _ _ _ => true | _ => false end)
             (new_events w w') = false) /\
    heap w' !! px = Some (BPixels (take c data ++ drop c buf)) /\
    heap w' !! it
    = Some (BItems (spec_encode (take c data) ++ drop (8 * c) pulses)).
Proof.
  intros Hlive Hfail c.
  pose proof (live_pixels_len _ _ _ _ _ _ _ _ Hlive) as Hlb.
  destruct (live_distinct _ _ _ _ _ _ _ _ Hlive) as (_ & _ & Hne).
  pose proof (show_live _ _ _ _ _ _ _ _ data o Hlive) as E. cbv zeta in E.
  replace (Nat.min (length data) (length buf)) with c in E by lia.
  destruct (rmt_write_items_res o) as [|e1].
  - destruct (rmt_wait_tx_done_res o) as [|e2].
    + destruct Hfail as [H|H]; contradiction H; reflexivity.
    + eexists. split; [exact E|].
      unfold new_events; cbn [trace heap]; rewrite drop_app_length.
      split; [reflexivity|]. split; [intros H; contradiction H; reflexivity|].
      split; [rewrite lookup_insert_ne by done|]; apply lookup_insert_eq.
  - eexists. split; [exact E|].
    unfold new_events; cbn [trace heap]; rewrite drop_app_length.
    split; [reflexivity|]. split; [reflexivity|].
    split; [rewrite lookup_insert_ne by done|]; apply lookup_insert_eq.
Qed.

(** [rmt_write_items] failing on a strip of one LED. *)
Lemma show_aborts_when_the_driver_fails_witness :
  exists w',
    nif_rmt_neopixel_show [TBinary [xff%byte]] write_fails_show one_led_world
    = Aborted w' /\
    last (new_events one_led_world w') = Some EvAbort /\
    heap w' !! 2%positive = Some (BPixels [xff; x00; x00]%byte).
Proof.
  destruct (show_aborts_when_the_driver_fails one_led_world _ _ _ _ _ _ _
              [xff%byte] write_fails_show one_led_world_live)
    as (w' & Hrun & Hlast & _ & Hpx & _); [left; discriminate|].
  exists w'. split; [exact Hrun|]. split; [exact Hlast|exact Hpx].
Defined.

(** X7. From any reachable world, whatever its arguments and whatever the
    driver answers, [show] leaves [g_state] and the session record as they
    were, keeps the same set of live blocks, and neither allocates nor
    frees, logs, configures nor installs the driver. *)
Theorem show_never_manages_memory_or_setup
    (w : world) (argv : list term) (o : show_oracle) (w' : world) :
  reachable w ->
  world_of (nif_rmt_neopixel_show argv o w) = Some w' ->
  g_state w' = g_state w /\
  dom (heap w') = dom (heap w) /\
  (forall (q : ptr) (s : neopixel_state_t),
      heap w !! q = Some (BState s) -> heap w' !! q = Some (BState s)) /\
  existsb is_memory_event (new_events w w') = false /\
  existsb is_setup_event (new_events w w') = false.
Proof.
  intros Hreach Hw. apply reachable_inv in Hreach.
  assert (w' = w -> g_state w' = g_state w /\
                    dom (heap w') = dom (heap w) /\
                    (forall (q : ptr) (s : neopixel_state_t),
                        heap w !! q = Some (BState s) ->
                        heap w' !! q = Some (BState s)) /\
                    existsb is_memory_event (new_events w w') = false /\
                    existsb is_setup_event (new_events w w') = false) as Hsame.
  { intros ->. rewrite new_events_same. repeat split; auto. }
  destruct (show_argv_cases argv) as [Hlen|[(a & -> & Hty)|(data & ->)]].
  - rewrite show_arity in Hw by exact Hlen. injection Hw as <-. auto.
  - rewrite show_badarg in Hw by exact Hty. injection Hw as <-. auto.
  - unfold world_inv in Hreach. destruct (g_state w) as [p|] eqn:Hg.
    2:{ rewrite show_no_session in Hw by exact Hg. injection Hw as <-. auto. }
    destruct Hreach as (px & it & P & N & buf & pulses & Hlive & _).
    destruct (show_live_preserved _ _ _ _ _ _ _ _ data o w' Hlive Hw)
      as (_ & Hdom & Hframe).
    destruct (show_live_world _ _ _ _ _ _ _ _ data o w' Hlive Hw)
      as (Hg' & _ & Hev).
    split; [congruence|]. split; [exact Hdom|]. split.
    + intros q s Hq. rewrite Hframe; [exact Hq| |]; intros ->.
      * rewrite (live_pixels _ _ _ _ _ _ _ _ Hlive) in Hq. discriminate.
      * rewrite (live_items _ _ _ _ _ _ _ _ Hlive) in Hq. discriminate.
    + destruct Hev as [(e & _ & ->)|[(e & _ & _ & ->)|(_ & _ & _ & ->)]];
        split; reflexivity.
Qed.

(** A [show] that aborts in [rmt_wait_tx_done]. *)
Lemma show_never_manages_memory_or_setup_witness :
  let w' := world_after (nif_rmt_neopixel_show [TBinary [x12; x34]%byte]
                           wait_fails_show one_led_world) in
  g_state w' = g_state one_led_world /\
  dom (heap w') = dom (heap one_led_world) /\
  existsb is_memory_event (new_events one_led_world w') = false.
Proof.
  intros w'.
  destruct (show_never_manages_memory_or_setup one_led_world
              [TBinary [x12; x34]%byte] wait_fails_show w'
              one_led_world_reachable)
    as (Hg & Hd & _ & Hm & _); [vm_compute; reflexivity|].
  split; [exact Hg|]. split; [exact Hd|exact Hm].
Defined.

(** X8. On a live session, [show] of the empty binary, or of any binary
    when the strip has zero LEDs, leaves the whole heap as it was and still
    calls [rmt_write_items], with no item and an item count of 0. *)
Theorem show_with_nothing_to_copy_touches_no_buffer
    (w : world) (p px it : ptr) (P N : Z) (buf : list byte)
    (pulses : list rmt_item32_t) (data : list byte) (o : show_oracle)
    (w' : world) :
  live_session w p px it P N buf pulses ->
  data = [] \/ N = 0 ->
  world_of (nif_rmt_neopixel_show [TBinary data] o w) = Some w' ->
  heap w' = heap w /\
  submitted_by (new_events w w') = [([], 0)].
Proof.
  intros Hlive Hnone Hw.
  pose proof (live_pixels_len _ _ _ _ _ _ _ _ Hlive) as Hlb.
  destruct (show_live_world _ _ _ _ _ _ _ _ data o w' Hlive Hw)
    as (_ & Hh & Hev).
  cbv zeta in Hh, Hev.
  assert (Nat.min (length data) (length buf) = 0%nat) as Hc.
  { destruct Hnone as [-> | ->]; [reflexivity|]. lia. }
  rewrite Hc in Hh, Hev. cbn [take drop spec_encode flat_map app Nat.mul] in Hh, Hev.
  rewrite take_0 in Hh, Hev. cbn [spec_encode flat_map app] in Hh, Hev.
  split.
  - rewrite Hh.
    rewrite (insert_id (heap w) px) by exact (live_pixels _ _ _ _ _ _ _ _ Hlive).
    apply insert_id. exact (live_items _ _ _ _ _ _ _ _ Hlive).
  - destruct Hev as [(e & _ & ->)|[(e & _ & _ & ->)|(_ & _ & _ & ->)]];
      reflexivity.
Qed.

(** Three bytes on a strip of zero LEDs, and no byte on a strip of one. *)
Lemma show_with_nothing_to_copy_touches_no_buffer_witness :
  heap (world_after (nif_rmt_neopixel_show [TBinary [xff; xff; xff]%byte]
                       all_ok_show zero_led_world))
  = heap zero_led_world /\
  heap (world_after (nif_rmt_neopixel_show [TBinary []] all_ok_show
                       one_led_shown_world))
  = heap one_led_shown_world.
Proof.
  split.
  - apply (show_with_nothing_to_copy_touches_no_buffer zero_led_world _ _ _ _ _ _ _
             [xff; xff; xff]%byte all_ok_show _ zero_led_world_live);
      [right; reflexivity|vm_compute; reflexivity].
  - assert (live_session one_led_shown_world 1%positive 2%positive 3%positive 5 1
              [x12; x34; x56]%byte (spec_encode [x12; x34; x56]%byte)) as Hl
      by (split; vm_compute; first [reflexivity | discriminate]).
    apply (show_with_nothing_to_copy_touches_no_buffer one_led_shown_world
             _ _ _ _ _ _ _ [] all_ok_show _ Hl);
      [left; reflexivity|vm_compute; reflexivity].
Defined.

(** X9. From any reachable world, with or without a session, [init] for a
    count [n >= 0] whose pulse buffer ([96 * n] bytes) is of a size an
    allocator can serve returns [OK_ATOM] whenever the allocator serves the
    three requests and the two driver calls report [ESP_OK]. *)
Theorem init_succeeds_when_nothing_is_refused
    (w : world) (pin n : Z) (o : init_oracle) :
  reachable w -> init_all_ok o -> 0 <= n -> 96 * n <= PTRDIFF_MAX ->
  exists w', nif_rmt_neopixel_init [TInteger pin; TInteger n] o w
             = Ret OK_ATOM w'.
Proof.
  intros Hreach (O1 & O2 & O3 & O4 & O5) Hn Hsz.
  destruct (init_when_served w pin n o (reachable_inv w Hreach) O1 O2 O3 Hn Hsz)
    as (w0 & fr & _ & _ & _ & _ & E).
  cbv zeta in E. rewrite O4, O5 in E. eexists. exact E.
Qed.

(** Sixty LEDs on pin 4, replacing a one-LED session. *)
Lemma init_succeeds_when_nothing_is_refused_witness :
  exists w', nif_rmt_neopixel_init [TInteger 4; TInteger 60] all_ok_init
               one_led_world = Ret OK_ATOM w'.
Proof.
  apply (init_succeeds_when_nothing_is_refused one_led_world 4 60 all_ok_init).
  - exact one_led_world_reachable.
  - repeat split.
  - lia.
  - vm_compute. discriminate.
Defined.

(** X10. [init] with a negative LED count never returns [OK_ATOM]: the
    count reaches [calloc] as a [size_t] above 2 GiB, which is refused.
    Whenever such a call returns, it returns [MEMORY_ERROR_ATOM] with
    [g_state] [NULL]; from a reachable world it does return (as long as
    [n * 3] fits an [int]), and the session that was live before the call
    is gone with it. *)
Theorem init_with_negative_count_leaves_no_session
    (w : world) (pin n : Z) (o : init_oracle) :
  n < 0 ->
  (forall r w', nif_rmt_neopixel_init [TInteger pin; TInteger n] o w = Ret r w' ->
                r = MEMORY_ERROR_ATOM /\ g_state w' = None) /\
  (reachable w -> INT_MIN <= n * 3 ->
   exists w', nif_rmt_neopixel_init [TInteger pin; TInteger n] o w
              = Ret MEMORY_ERROR_ATOM w' /\
              g_state w' = None /\ heap w' = ∅).
Proof.
  intros Hneg. split.
  - intros r w' Hrun.
    destruct (init_defined pin n o w w') as [w0 Hfree]; [rewrite Hrun; reflexivity|].
    pose proof (init_outcomes pin n o w w0 Hfree) as Hout. cbv zeta in Hout.
    rewrite Hrun in Hout.
    destruct Hout as [H|[H|[(b & H)|[(b & Hn & H)|(Hn & _)]]]];
      try discriminate; try lia; injection H as -> ->; split; reflexivity.
  - intros Hreach Hmin.
    destruct (free_previous_inv w n pin (reachable_inv w Hreach))
      as (w0 & fr & Hfree & Hh0 & _ & _).
    pose proof (init_from pin n o w w0 Hfree) as E. cbv zeta in E.
    rewrite Hh0 in E.
    destruct (malloc_state_ok o); cbn [negb] in E;
      [|eexists; split; [exact E|split; reflexivity]].
    rewrite (in_int_range_true (n * 3)) in E by (unfold INT_MAX; lia).
    cbn [negb] in E.
    replace (to_size_t (n * 3) * sizeof_uint8_t <=? PTRDIFF_MAX) with false in E.
    2:{ symmetry. apply Z.leb_gt.
        unfold to_size_t, SIZE_MODULUS, sizeof_uint8_t, PTRDIFF_MAX, INT_MIN in *.
        assert ((n * 3) mod 4294967296 = n * 3 + 4294967296) as ->.
        { symmetry. apply Z.mod_unique with (q := -1); lia. }
        lia. }
    rewrite andb_false_r in E. cbn [negb] in E.
    eexists; split; [exact E|split; reflexivity].
Qed.

(** [init(5, -1)] on top of a one-LED session. *)
Lemma init_with_negative_count_leaves_no_session_witness :
  exists w', nif_rmt_neopixel_init [TInteger 5; TInteger (-1)] all_ok_init
               one_led_world = Ret MEMORY_ERROR_ATOM w' /\
             g_state w' = None /\ heap w' = ∅.
Proof.
  destruct (init_with_negative_count_leaves_no_session one_led_world 5 (-1)
              all_ok_init) as [_ H]; [lia|].
  apply H; [exact one_led_world_reachable|vm_compute; discriminate].
Defined.

(** X11. When the three allocations of [init] succeed and [rmt_config] or
    [rmt_driver_install] reports an error, [init] does not return: the
    process aborts under [ESP_ERROR_CHECK], and a failed [rmt_config] is
    not followed by [rmt_driver_install]. At that point the new session is
    fully built and [g_state] points to it. *)
Theorem init_aborts_when_the_driver_fails
    (w : world) (pin n : Z) (o : init_oracle) :
  reachable w ->
  malloc_state_ok o = true -> calloc_pixels_ok o = true ->
  calloc_items_ok o = true ->
  0 <= n -> 96 * n <= PTRDIFF_MAX ->
  rmt_config_res o <> ESP_OK \/ rmt_driver_install_res o <> ESP_OK ->
  exists (w' : world) (p px it : ptr),
    nif_rmt_neopixel_init [TInteger pin; TInteger n] o w = Aborted w' /\
    last (new_events w w') = Some EvAbort /\
    (rmt_config_res o <> ESP_OK ->
     existsb (fun e => match e with
                       | EvRmtDriverInstall _ _ _ _ => true
                       | _ => false
                       end) (new_events w w') = false) /\
    live_session w' p px it pin n
      (replicate (Z.to_nat (3 * n)) x00%byte)
      (replicate (Z.to_nat (24 * n)) zero_item).
Proof.
  intros Hreach O1 O2 O3 Hn Hsz Hfail.
  destruct (init_when_served w pin n o (reachable_inv w Hreach) O1 O2 O3 Hn Hsz)
    as (w0 & fr & _ & _ & Htr & Hfr & E).
  cbv zeta in E.
  assert (24 * n <= INT_MAX) as Hr by (unfold PTRDIFF_MAX, INT_MAX in *; lia).
  assert (forall f : event -> bool,
             (forall q, f (EvFree q) = false) -> existsb f fr = false) as Hnof.
  { intros f Hf. apply existsb_frees; assumption. }
  destruct (rmt_config_res o) as [|c] eqn:O4.
  - destruct (rmt_driver_install_res o) as [|e] eqn:O5.
    { destruct Hfail as [H|H]; contradiction H; reflexivity. }
    eexists. do 3 eexists. split; [exact E|].
    unfold new_events. cbn [trace]. rewrite Htr, <- !app_assoc, drop_app_length.
    split; [|split; [intros H; contradiction H; reflexivity|]].
    + rewrite last_app. reflexivity.
    + apply init_ok_live; [exact Hn|exact Hr|reflexivity|reflexivity].
  - eexists. do 3 eexists. split; [exact E|].
    unfold new_events. cbn [trace]. rewrite Htr, <- !app_assoc, drop_app_length.
    split; [|split].
    + rewrite last_app. reflexivity.
    + intros _. rewrite existsb_app. cbn [existsb orb].
      rewrite existsb_app, Hnof by reflexivity. reflexivity.
    + apply init_ok_live; [exact Hn|exact Hr|reflexivity|reflexivity].
Qed.

(** [rmt_config] failing during [init(5, 1)]. *)
Lemma init_aborts_when_the_driver_fails_witness :
  exists (w' : world) (p px it : ptr),
    nif_rmt_neopixel_init [TInteger 5; TInteger 1] config_fails_init
      initial_world = Aborted w' /\
    last (new_events initial_world w') = Some EvAbort /\
    live_session w' p px it 5 1
      (replicate (Z.to_nat (3 * 1)) x00%byte)
      (replicate (Z.to_nat (24 * 1)) zero_item).
Proof.
  destruct (init_aborts_when_the_driver_fails initial_world 5 1 config_fails_init)
    as (w' & p & px & it & Hrun & Hlast & _ & Hlive);
    try reflexivity; try lia.
  - exact reachable_initial.
  - vm_compute. discriminate.
  - left. discriminate.
  - exists w', p, px, it. split; [exact Hrun|]. split; [exact Hlast|exact Hlive].
Defined.

(** X12. What a successful [init(pin, n)] does, in order: it logs, frees
    what it has to free, allocates the record, then [3 * n] bytes, then
    [96 * n] bytes, calls [rmt_config] and then
    [rmt_driver_install(RMT_CHANNEL, 0, 0)], each once. It transmits
    nothing. *)
Theorem init_success_event_order
    (pin n : Z) (o : init_oracle) (w w' : world) :
  nif_rmt_neopixel_init [TInteger pin; TInteger n] o w = Ret OK_ATOM w' ->
  exists (fr : list event) (p px it : ptr),
    Forall (fun e => is_free e = true) fr /\
    new_events w w'
    = EvLog n pin :: fr ++
        [EvAlloc sizeof_neopixel_state_t (Some p);
         EvAlloc (3 * n) (Some px);
         EvAlloc (96 * n) (Some it);
         EvRmtConfig (rmt_cfg_of pin) ESP_OK;
         EvRmtDriverInstall RMT_CHANNEL 0 0 ESP_OK] /\
    existsb is_transmit_event (new_events w w') = false.
Proof.
  intros Hrun.
  destruct (init_defined pin n o w w') as [w0 Hfree]; [rewrite Hrun; reflexivity|].
  destruct (free_previous_shape _ _ Hfree) as (_ & fr & Htr & Hfr).
  pose proof (init_outcomes pin n o w w0 Hfree) as Hout. cbv zeta in Hout.
  rewrite Hrun in Hout.
  destruct Hout as [H|[H|[(b & H)|[(b & _ & H)|(Hn & Hr & c & e & [H|[H|H]])]]]];
    try discriminate.
  injection H as Hw'.
  set (p := fresh (dom (heap w0))) in *.
  set (px := fresh ({[p]} ∪ dom (heap w0))) in *.
  set (it := fresh ({[px]} ∪ ({[p]} ∪ dom (heap w0)))) in *.
  exists fr, p, px, it. split; [exact Hfr|].
  assert (new_events w w'
          = EvLog n pin :: fr ++
              [EvAlloc sizeof_neopixel_state_t (Some p);
               EvAlloc (3 * n) (Some px);
               EvAlloc (96 * n) (Some it);
               EvRmtConfig (rmt_cfg_of pin) ESP_OK;
               EvRmtDriverInstall RMT_CHANNEL 0 0 ESP_OK]) as Hev.
  { apply new_events_app. rewrite Hw'. cbn [trace]. rewrite Htr.
    cbn [logged trace]. rewrite <- !app_assoc. reflexivity. }
  rewrite Hev. split; [reflexivity|].
  cbn [existsb is_transmit_event orb]. rewrite existsb_app.
  rewrite (existsb_frees _ fr) by (try reflexivity; exact Hfr). reflexivity.
Qed.

(** [init(5, 2)] on top of a one-LED session. *)
Lemma init_success_event_order_witness :
  exists (fr : list event) (p px it : ptr),
    Forall (fun e => is_free e = true) fr /\
    new_events one_led_world two_led_world_again
    = EvLog 2 5 :: fr ++
        [EvAlloc sizeof_neopixel_state_t (Some p);
         EvAlloc (3 * 2) (Some px);
         EvAlloc (96 * 2) (Some it);
         EvRmtConfig (rmt_cfg_of 5) ESP_OK;
         EvRmtDriverInstall RMT_CHANNEL 0 0 ESP_OK] /\
    existsb is_transmit_event (new_events one_led_world two_led_world_again)
    = false.
Proof.
  apply (init_success_event_order 5 2 all_ok_init one_led_world).
  vm_compute. reflexivity.
Defined.

(** X13. In every reachable world with a session, each entry of the pulse
    buffer is either still the all-zero item [calloc] left there or the
    descriptor of the corresponding bit of the pixel buffer as it is now:
    the two buffers never disagree. *)
Theorem pulse_buffer_stays_coherent_with_pixel_buffer (w : world) :
  reachable w -> world_coherent w.
Proof.
  induction 1 as [|w c r w' Hreach IH Hrun].
  - intros p px it P N buf pulses [Hg _ _ _ _ _ _]. discriminate.
  - destruct c as [argv o|argv o]; cbn [run_call] in Hrun.
    + destruct (init_argv_cases argv) as [Hlen|[(a & b & -> & Hty)|(pin & n & ->)]].
      * rewrite init_arity in Hrun by exact Hlen. injection Hrun as _ <-. exact IH.
      * rewrite init_badarg in Hrun by exact Hty. injection Hrun as _ <-. exact IH.
      * destruct (init_defined pin n o w w') as [w0 Hfree];
          [rewrite Hrun; reflexivity|].
        pose proof (init_outcomes pin n o w w0 Hfree) as Hout. cbv zeta in Hout.
        rewrite Hrun in Hout.
        destruct Hout as [H|[H|[(b & H)|[(b & _ & H)|(Hn & Hr & c & e & [H|[H|H]])]]]];
          try discriminate; injection H as _ Hw'.
        1-3: intros p px it P N buf pulses [Hg _ _ _ _ _ _];
             rewrite Hw' in Hg; discriminate.
        destruct (init_ok_live pin n (heap w0) w' Hn Hr) as [Hlive _];
          [rewrite Hw'; reflexivity ..|].
        intros p px it P N buf pulses Hlive'.
        destruct (live_session_functional _ _ _ _ _ _ _ _ _ _ _ _ _ _ _
                    Hlive Hlive') as [-> ->].
        apply coherent_zeroed.
    + pose proof (reachable_inv w Hreach) as Hinv.
      destruct (show_argv_cases argv) as [Hlen|[(a & -> & Hty)|(data & ->)]].
      * rewrite show_arity in Hrun by exact Hlen. injection Hrun as _ <-. exact IH.
      * rewrite show_badarg in Hrun by exact Hty. injection Hrun as _ <-. exact IH.
      * unfold world_inv in Hinv. destruct (g_state w) as [p|] eqn:Hg.
        2:{ rewrite show_no_session in Hrun by exact Hg.
            injection Hrun as _ <-. exact IH. }
        destruct Hinv as (px & it & P & N & buf & pulses & Hlive & _).
        assert (world_of (nif_rmt_neopixel_show [TBinary data] o w) = Some w')
          as Hw by (rewrite Hrun; reflexivity).
        destruct (show_live_preserved _ _ _ _ _ _ _ _ data o w' Hlive Hw)
          as (Hlive1 & _ & _). cbv zeta in Hlive1.
        intros p' px' it' P' N' buf' pulses' Hlive'.
        destruct (live_session_functional _ _ _ _ _ _ _ _ _ _ _ _ _ _ _
                    Hlive1 Hlive') as [-> ->].
        apply coherent_after_show; [lia|lia|].
        exact (IH _ _ _ _ _ _ _ Hlive).
Qed.

(** One LED after a first frame. *)
Lemma pulse_buffer_stays_coherent_with_pixel_buffer_witness :
  world_coherent one_led_shown_world.
Proof.
  apply pulse_buffer_stays_coherent_with_pixel_buffer.
  exact one_led_shown_world_reachable.
Defined.

(** X14. [esp_neopixel_nif_get_nif] answers the [init] entry for
    ["rmt_neopixel_init"], the [show] entry for ["rmt_neopixel_show"] and
    [NULL] for every other name. An entry it answers carries the name
    asked for, and its [arity] is the argument count its [nif_ptr]
    accepts: called with another count the function returns [BADARITY] and
    changes nothing; called with that count (from a reachable world) it
    never returns [BADARITY]. *)
Theorem nif_table_names_and_arities_match_the_nifs (nifname : string) :
  (nifname = "rmt_neopixel_init"%string ->
   esp_neopixel_nif_get_nif nifname = Some rmt_neopixel_init_nif) /\
  (nifname = "rmt_neopixel_show"%string ->
   esp_neopixel_nif_get_nif nifname = Some rmt_neopixel_show_nif) /\
  (nifname <> "rmt_neopixel_init"%string ->
   nifname <> "rmt_neopixel_show"%string ->
   esp_neopixel_nif_get_nif nifname = None) /\
  match esp_neopixel_nif_get_nif nifname with
  | None =>
      nifname <> "rmt_neopixel_init"%string /\
      nifname <> "rmt_neopixel_show"%string
  | Some nif =>
      name nif = nifname /\
      (forall argv o w,
          Z.of_nat (length argv) <> arity nif ->
          nif_ptr nif argv o w = Ret BADARITY w) /\
      (forall argv o w r w',
          reachable w ->
          Z.of_nat (length argv) = arity nif ->
          nif_ptr nif argv o w = Ret r w' ->
          r <> BADARITY)
  end.
Proof.
  split; [intros ->; reflexivity|]. split; [intros ->; reflexivity|].
  split.
  { intros H1 H2. unfold esp_neopixel_nif_get_nif.
    destruct (String.eqb_spec "rmt_neopixel_init" nifname) as [E|_];
      [contradiction H1; symmetry; exact E|].
    destruct (String.eqb_spec "rmt_neopixel_show" nifname) as [E|_];
      [contradiction H2; symmetry; exact E|].
    reflexivity. }
  unfold esp_neopixel_nif_get_nif.
  destruct (String.eqb_spec "rmt_neopixel_init" nifname) as [<-|Hne1].
  - split; [reflexivity|]. split.
    + intros argv o w Hlen. cbn [nif_ptr rmt_neopixel_init_nif arity] in *.
      apply init_arity. lia.
    + intros argv o w r w' _ Hlen Hrun.
      cbn [nif_ptr rmt_neopixel_init_nif arity] in *.
      destruct (init_returns _ _ _ _ _ Hrun)
        as [(_ & H & _)|[[-> _]|[[-> _]|[-> _]]]]; [lia|discriminate ..].
  - destruct (String.eqb_spec "rmt_neopixel_show" nifname) as [<-|Hne2].
    + split; [reflexivity|]. split.
      * intros argv o w Hlen. cbn [nif_ptr rmt_neopixel_show_nif arity] in *.
        apply show_arity. lia.
      * intros argv o w r w' Hreach Hlen Hrun.
        cbn [nif_ptr rmt_neopixel_show_nif arity] in *.
        destruct (show_returns _ _ _ _ _ (reachable_inv w Hreach) Hrun)
          as [(_ & H & _)|[[-> _]|[[-> _]|[-> _]]]]; [lia|discriminate ..].
    + split; congruence.
Qed.

(** The entry found under ["rmt_neopixel_show"], and two names the table
    does not know. *)
Lemma nif_table_names_and_arities_match_the_nifs_witness :
  esp_neopixel_nif_get_nif "rmt_neopixel_blink" = None /\
  esp_neopixel_nif_get_nif "RMT_NEOPIXEL_SHOW" = None /\
  exists nif : Nif,
    esp_neopixel_nif_get_nif "rmt_neopixel_show" = Some nif /\
    name nif = "rmt_neopixel_show"%string /\
    nif_ptr nif [] {| init_answers := all_ok_init; show_answers := all_ok_show |}
      one_led_world = Ret BADARITY one_led_world /\
    OK_ATOM <> BADARITY.
Proof.
  split; [|split].
  - destruct (nif_table_names_and_arities_match_the_nifs "rmt_neopixel_blink")
      as (_ & _ & H & _). apply H; discriminate.
  - destruct (nif_table_names_and_arities_match_the_nifs "RMT_NEOPIXEL_SHOW")
      as (_ & _ & H & _). apply H; discriminate.
  - destruct (nif_table_names_and_arities_match_the_nifs "rmt_neopixel_show")
      as (_ & Hfound & _ & H).
    rewrite (Hfound eq_refl) in H. destruct H as (Hname & Hbad & Hgood).
    exists rmt_neopixel_show_nif. split; [exact (Hfound eq_refl)|].
    split; [exact Hname|]. split.
    + apply Hbad. vm_compute. discriminate.
    + apply (Hgood [TBinary [x01%byte]]
               {| init_answers := all_ok_init; show_answers := all_ok_show |}
               one_led_world OK_ATOM
               (world_after (nif_rmt_neopixel_show [TBinary [x01%byte]]
                               all_ok_show one_led_world))).
      * exact one_led_world_reachable.
      * reflexivity.
      * vm_compute. reflexivity.
Defined.

(** X15. From any reachable world, [init] returns nothing but [BADARITY],
    [BADARG], [MEMORY_ERROR_ATOM] or [OK_ATOM]: a session is live after
    [OK_ATOM], none after [MEMORY_ERROR_ATOM], and the world is unchanged
    after the two argument errors. [show] returns nothing but [BADARITY],
    [BADARG], [ERROR_ATOM] or [OK_ATOM]: [OK_ATOM] only with a live
    session, [ERROR_ATOM] only without one, and every return other than
    [OK_ATOM] leaves the world unchanged. *)
Theorem nifs_return_only_their_own_atoms (w : world) :
  reachable w ->
  (forall argv o r w',
      nif_rmt_neopixel_init argv o w = Ret r w' ->
      (r = BADARITY \/ r = BADARG \/ r = MEMORY_ERROR_ATOM \/ r = OK_ATOM) /\
      (r = OK_ATOM -> g_state w' <> None) /\
      (r = MEMORY_ERROR_ATOM -> g_state w' = None) /\
      (r = BADARITY \/ r = BADARG -> w' = w)) /\
  (forall argv o r w',
      nif_rmt_neopixel_show argv o w = Ret r w' ->
      (r = BADARITY \/ r = BADARG \/ r = ERROR_ATOM \/ r = OK_ATOM) /\
      (r = OK_ATOM -> g_state w <> None) /\
      (r = ERROR_ATOM -> g_state w = None) /\
      (r <> OK_ATOM -> w' = w)).
Proof.
  intros Hreach. pose proof (reachable_inv w Hreach) as Hinv. split.
  - intros argv o r w' Hrun.
    destruct (init_returns _ _ _ _ _ Hrun)
      as [(-> & _ & Hw)|[(-> & _ & Hw)|[(-> & _ & Hg)|(-> & _ & Hg)]]];
      (split; [auto|]); (split; [try discriminate; auto|]);
      (split; [try discriminate; auto|]);
      try (intros _; exact Hw); intros [H|H]; discriminate.
  - intros argv o r w' Hrun.
    destruct (show_returns _ _ _ _ _ Hinv Hrun)
      as [(-> & _ & Hw)|[(-> & _ & Hw)|[(-> & _ & Hg & Hw)|(-> & _ & Hg)]]];
      (split; [auto|]); (split; [try discriminate; auto|]);
      (split; [try discriminate; auto|]);
      try (intros _; exact Hw); intros H; contradiction H; reflexivity.
Qed.

(** A [show] that succeeds and an [init] that runs out of memory, both on
    a one-LED session. *)
Lemma nifs_return_only_their_own_atoms_witness :
  g_state one_led_world <> None /\
  g_state (world_after (nif_rmt_neopixel_init [TInteger 5; TInteger 1]
                          no_items_init one_led_world)) = None.
Proof.
  destruct (nifs_return_only_their_own_atoms one_led_world
              one_led_world_reachable) as [Hi Hs].
  split.
  - apply (Hs [TBinary [x01%byte]] all_ok_show OK_ATOM
              (world_after (nif_rmt_neopixel_show [TBinary [x01%byte]]
                              all_ok_show one_led_world)));
      [vm_compute; reflexivity|reflexivity].
  - apply (Hi [TInteger 5; TInteger 1] no_items_init MEMORY_ERROR_ATOM);
      [vm_compute; reflexivity|reflexivity].
Defined.
